(** * qsiprep: merging of distortion groups and merge-and-denoise wiring

    A shallow embedding of the two workflow factories

      - [qsiprep/workflows/dwi/merge.py]                   ([init_merge_and_denoise_wf])
      - [qsiprep/workflows/dwi/distortion_group_merge.py]  ([init_distortion_group_merge_wf])

    Both functions build a nipype dataflow graph: they create nodes, and
    [workflow.connect] records port-to-port edges between them.  The
    embedding keeps exactly that: a workflow is a name, the vertices that
    [connect] has added so far, and the list of port-level edges in the
    order of the calls.  The local variable [workflow] is the only object
    the functions mutate while they build the graph, so the statements of
    a function body live in a state-and-exception monad over it.

    nipype itself is a third-party engine.  Of its behaviour the
    embedding keeps what a call in the source text decides by itself: a
    constructor called without one of its required arguments raises
    [TypeError], as any Python call does.  What depends on the values
    handed over is taken as given: the arguments are valid ones (a
    non-empty list of groups, names that nipype accepts), and nipype's
    own checks at [connect] time (port names against the traits of an
    interface) are not part of the sources and are not modelled;
    [connect] records what the source text declares.  Python exceptions
    that come from the language itself (a name that is bound nowhere, a
    local read before assignment, a missing argument) are modelled. *)

From Stdlib Require Import ZArith QArith_base String Ascii List.
From stdpp Require Import base tactics option list strings pretty.

Open Scope string_scope.
Open Scope list_scope.

(** ** Python strings

    A [str] is modelled by its bytes.  The three string methods the
    sources call are [lower], [replace] with one-character arguments and
    [startswith]; [split] is used on node names. *)
Module Py.

Definition lower_ascii (c : ascii) : ascii :=
  let n := nat_of_ascii c in
  if (65 <=? n)%nat && (n <=? 90)%nat then ascii_of_nat (n + 32) else c.

(** [s.lower()].  Only the letters A-Z change.  A code point outside
    ASCII never lowers to one of the letters of ['average'], so the
    comparison [s.lower() == 'average'] is the same on bytes. *)
Fixpoint lower (s : string) : string :=
  match s with
  | EmptyString => EmptyString
  | String c r => String (lower_ascii c) (lower r)
  end.

(** [s.replace(old, new)] for one-character [old] and [new]. *)
Fixpoint replace (old new : ascii) (s : string) : string :=
  match s with
  | EmptyString => EmptyString
  | String c r => String (if Ascii.eqb c old then new else c) (replace old new r)
  end.

(** [c in s] for a one-character [c]. *)
Fixpoint contains (c : ascii) (s : string) : bool :=
  match s with
  | EmptyString => false
  | String d r => Ascii.eqb d c || contains c r
  end.

(** [s.startswith(p)] *)
Definition startswith (s p : string) : bool := String.prefix p s.

(** [s.split(sep)] for a one-character separator. *)
Fixpoint split (sep : ascii) (s : string) : list string :=
  match s with
  | EmptyString => [EmptyString]
  | String c r =>
      if Ascii.eqb c sep then EmptyString :: split sep r
      else match split sep r with
           | h :: t => String c h :: t
           | [] => [String c EmptyString]
           end
  end.

(** [enumerate(l)] *)
Fixpoint enumerate_from {A : Type} (k : nat) (l : list A) : list (nat * A) :=
  match l with
  | [] => []
  | x :: r => (k, x) :: enumerate_from (S k) r
  end.
Definition enumerate {A : Type} (l : list A) : list (nat * A) := enumerate_from 0 l.

(** [sorted(l)] for a list of strings: in the order of the code points. *)
Fixpoint insert_sorted (x : string) (l : list string) : list string :=
  match l with
  | [] => [x]
  | y :: r => if String.leb x y then x :: y :: r else y :: insert_sorted x r
  end.
Definition sorted (l : list string) : list string := fold_right insert_sorted [] l.

(** ['%d' % n] for a natural number: its decimal digits. *)
Definition format_d (n : nat) : string := pretty n.

(** A Python exception: its class and the name it complains about.
    [UnboundLocalError] is a subclass of [NameError] in Python. *)
Record exn := Exn { exn_class : string; exn_arg : string }.

Definition NameError (x : string) : exn := Exn "NameError" x.
Definition UnboundLocalError (x : string) : exn := Exn "UnboundLocalError" x.
Definition AttributeError (x : string) : exn := Exn "AttributeError" x.
(** A call that leaves out the required argument [x]. *)
Definition TypeError (x : string) : exn := Exn "TypeError" x.

Inductive result (A : Type) : Type :=
| Return (a : A)
| Raise (e : exn).
Global Arguments Return {A} a.
Global Arguments Raise {A} e.

(** Values passed as keyword arguments or set on [node.inputs]. *)
Inductive value :=
| VStr (s : string)
| VStrList (l : list string)
| VBool (b : bool)
| VInt (z : Z)
| VFloat (q : Q)
| VTuple (l : list Z).

End Py.
Import Py.

(** ** The part of nipype the sources use *)
Module nipype.

(** The interfaces that the two files instantiate. *)
Inductive Interface :=
| IdentityInterface (fields : list string)
| Merge (numinputs : nat)
| AveragePEPairs
| MergeDWIs
| DWIDenoise
| MRTrixGradientTable
| GradientPlot
| SeriesQC
| DerivativesDataSink.

(** [pe.Node] or [pe.MapNode]; a [MapNode] runs its interface once per
    element of its [iterfield]. *)
Inductive NodeClass :=
| PlainNode
| MapNode (iterfield : string).

Record Node := mkNode {
  n_class : NodeClass;
  n_interface : Interface;
  n_inputs : list (string * value);   (* interface keyword arguments, [node.inputs.x = v] *)
  n_name : string;
  n_kwargs : list (string * value)    (* remaining keyword arguments of the node *)
}.

(** [node.inputs.k = v] *)
Definition assign_input (k : string) (v : value) (n : Node) : Node :=
  mkNode (n_class n) (n_interface n)
         ((k, v) :: filter (fun kv => negb (String.eqb (fst kv) k)) (n_inputs n))
         (n_name n) (n_kwargs n).

(** One port-level connection [src.srcfield -> dst.dstfield]; vertices
    are referred to by their names, which are unique inside a workflow. *)
Record Edge := mkEdge {
  e_src : string; e_srcfield : string;
  e_dst : string; e_dstfield : string
}.

Global Instance Edge_eq_dec : EqDecision Edge.
Proof. solve_decision. Defined.

(** A workflow; a vertex is a node or a nested workflow. *)
#[local] Unset Elimination Schemes.
Inductive Workflow :=
| mkWorkflow (wf_name : string) (wf_vertices : list (Node + Workflow)) (wf_edges : list Edge).

#[local] Set Elimination Schemes.

Definition Vertex : Type := Node + Workflow.

Definition wf_name (w : Workflow) : string := let 'mkWorkflow n _ _ := w in n.
Definition wf_vertices (w : Workflow) : list Vertex := let 'mkWorkflow _ v _ := w in v.
Definition wf_edges (w : Workflow) : list Edge := let 'mkWorkflow _ _ e := w in e.

Definition vertex_name (v : Vertex) : string :=
  match v with
  | inl n => n_name n
  | inr w => wf_name w
  end.

(** [Workflow(name=name)], for a name that nipype accepts. *)
Definition new_workflow (name : string) : Workflow := mkWorkflow name [] [].

Definition has_vertex (w : Workflow) (name : string) : bool :=
  existsb (fun v => String.eqb (vertex_name v) name) (wf_vertices w).

(** [workflow.get_node(name)] on the top level of the graph. *)
Definition get_node (w : Workflow) (name : string) : option Vertex :=
  find (fun v => String.eqb (vertex_name v) name) (wf_vertices w).

Definition add_vertex (v : Vertex) (w : Workflow) : Workflow :=
  if has_vertex w (vertex_name v) then w
  else mkWorkflow (wf_name w) (wf_vertices w ++ [v]) (wf_edges w).

Definition add_edges (es : list Edge) (w : Workflow) : Workflow :=
  mkWorkflow (wf_name w) (wf_vertices w) (wf_edges w ++ es).

(** One element [(src, dst, [(srcfield, dstfield), ...])] of the list
    given to [workflow.connect]. *)
Definition Connection : Type := Vertex * Vertex * list (string * string).

Definition connection_edges (c : Connection) : list Edge :=
  let '(src, dst, ports) := c in
  map (fun p => mkEdge (vertex_name src) (fst p) (vertex_name dst) (snd p)) ports.

Definition connect1 (w : Workflow) (c : Connection) : Workflow :=
  let '(src, dst, _) := c in
  add_edges (connection_edges c) (add_vertex dst (add_vertex src w)).

(** [workflow.connect(connection_list)] as a function on the graph. *)
Definition connect_graph (cs : list Connection) (w : Workflow) : Workflow :=
  fold_left connect1 cs w.

(** What a Python name can stand for where a connection is written:
    a vertex of the graph, or one of the objects bound at module level
    (an imported module, class or function, a constant, a logger). *)
Inductive object :=
| OVertex (v : Vertex)
| OModule
| OClass
| OFunction
| OFloat (q : Q)
| OLogger.

(** Edges that arrive at a vertex, in the order they were declared. *)
Definition edges_into (w : Workflow) (dst : string) : list Edge :=
  filter (fun e => e_dst e = dst) (wf_edges w).

Definition has_edge (w : Workflow) (e : Edge) : Prop := e ∈ wf_edges w.

(** The output ports [(src, srcfield)] connected to one input port. *)
Definition feeds (w : Workflow) (dst dstfield : string) : list (string * string) :=
  map (fun e => (e_src e, e_srcfield e))
      (filter (fun e => e_dst e = dst ∧ e_dstfield e = dstfield) (wf_edges w)).

End nipype.
Import nipype.

Declare Scope wf_scope.
Delimit Scope wf_scope with wf.
Notation "a @ f ~> b @ g" := (mkEdge a f b g)
  (at level 70, f at level 9, b at level 9, g at level 9, no associativity) : wf_scope.
Open Scope wf_scope.

(** ** The monad of a function body

    A statement reads and updates the graph held by [workflow] and either
    completes or raises.  When a statement raises, the rest of the body is
    skipped and the graph is left as it was at that point. *)
Definition M (A : Type) : Type := Workflow -> Workflow * result A.

Global Instance M_ret : MRet M := fun A a w => (w, Return a).
Global Instance M_bind : MBind M := fun A B f m w =>
  match m w with
  | (w', Return a) => f a w'
  | (w', Raise e) => (w', Raise e)
  end.

Definition raise {A : Type} (e : exn) : M A := fun w => (w, Raise e).
Definition get_workflow : M Workflow := fun w => (w, Return w).
Definition modify (f : Workflow -> Workflow) : M unit := fun w => (f w, Return tt).

(** [workflow.connect([...])]: the argument list is evaluated first, one
    element after the other; only then is the graph updated. *)
Fixpoint eval_list {A : Type} (items : list (M A)) : M (list A) :=
  match items with
  | [] => mret []
  | x :: xs => a ← x; r ← eval_list xs; mret (a :: r)
  end.

(** An endpoint that is not a vertex has no [name] for the graph to
    file it under. *)
Definition as_vertex (o : object) : M Vertex :=
  match o with
  | OVertex v => mret v
  | _ => raise (AttributeError "name")
  end.

Definition as_connection (t : object * object * list (string * string)) : M Connection :=
  let '(src, dst, ports) := t in
  s ← as_vertex src; d ← as_vertex dst; mret (s, d, ports).

Definition connect (items : list (M (object * object * list (string * string)))) : M unit :=
  ts ← eval_list items;
  cs ← eval_list (map as_connection ts);
  modify (connect_graph cs).

(** A tuple [(src, dst, ports)] whose two endpoints are local variables
    that are certainly bound. *)
Definition conn (src dst : Vertex) (ports : list (string * string))
    : M (object * object * list (string * string)) :=
  mret (OVertex src, OVertex dst, ports).

(** [for x in xs: body] *)
Fixpoint for_each {A : Type} (xs : list A) (body : A -> M unit) : M unit :=
  match xs with
  | [] => mret tt
  | x :: r => body x;; for_each r body
  end.

(** [pe.MapNode(interface, iterfield, name, **kwargs)].  [iterfield] has
    no default: a call that does not pass it is a [TypeError], raised
    before any node exists. *)
Definition new_MapNode (interface : Interface) (iterfield : option string) (name : string)
    (kwargs : list (string * value)) : M Node :=
  match iterfield with
  | Some f => mret (mkNode (MapNode f) interface [] name kwargs)
  | None => raise (TypeError "iterfield")
  end.

(** The graph when the body stopped, and how it stopped. *)
Definition graph_at_exit {A : Type} (r : Workflow * result A) : Workflow := fst r.
Definition outcome {A : Type} (r : Workflow * result A) : result A := snd r.

(** ** [qsiprep/workflows/dwi/merge.py] *)
Module merge.

Definition DEFAULT_MEMORY_MIN_GB : Q := Qmake 1 100.

Definition outputnode : Node :=
  mkNode PlainNode
         (IdentityInterface ["merged_image"; "merged_bval"; "merged_bvec"; "noise_image"])
         [] "outputnode" [].

Definition merge_dwis : Node := mkNode PlainNode MergeDWIs [] "merge_dwis" [].

(** The node that lines 105-108 build. *)
Definition denoise (dwi_denoise_window : Z) : Node :=
  mkNode (MapNode "in_file") DWIDenoise [] "denoise"
         [("extent", VTuple [dwi_denoise_window; dwi_denoise_window; dwi_denoise_window])].

(** Lines 96-135, for the input node that lines 92-94 have bound. *)
Definition wire (inputnode : Vertex) (dwi_denoise_window : Z)
    (denoise_before_combining : bool) : M Workflow :=
  let outputnode : Vertex := inl outputnode in
  let merge_dwis : Vertex := inl merge_dwis in
  connect [conn inputnode merge_dwis [("dwi_files", "original_files")]];;
  (if (dwi_denoise_window >? 0)%Z then
     denoise ← new_MapNode DWIDenoise (Some "in_file") "denoise"
                 [("extent", VTuple [dwi_denoise_window; dwi_denoise_window;
                                     dwi_denoise_window])];
     let denoise : Vertex := inl denoise in
     if denoise_before_combining then
       connect [
         conn inputnode denoise [("dwi_files", "in_file")];
         conn denoise merge_dwis [("out_file", "dwi_files")];
         conn denoise outputnode [("noise", "noise_image")];
         conn merge_dwis outputnode [("out_dwi", "merged_image");
                                     ("out_bval", "merged_bval");
                                     ("out_bvec", "merged_bvec")]]
     else
       connect [
         conn inputnode merge_dwis [("dwi_files", "dwi_files")];
         conn merge_dwis denoise [("out_dwi", "in_file")];
         conn denoise outputnode [("noise", "noise_image");
                                  ("out_file", "merged_image")];
         conn merge_dwis outputnode [("out_bval", "merged_bval");
                                     ("out_bvec", "merged_bvec")]]
   else
     connect [
       conn inputnode merge_dwis [("dwi_files", "dwi_files")];
       conn merge_dwis outputnode [("out_dwi", "merged_image");
                                   ("out_bval", "merged_bval");
                                   ("out_bvec", "merged_bvec")]]);;
  get_workflow.

(** The whole body.  Lines 92-93 call [pe.MapNode] with an interface and
    a name only. *)
Definition body (dwi_files : list string) (dwi_denoise_window : Z)
    (denoise_before_combining combine_all_dwis : bool)
    (mem_gb omp_nthreads : Z) : M Workflow :=
  inputnode ← new_MapNode (IdentityInterface ["dwi_files"]) None "inputnode" [];
  let inputnode : Node := assign_input "dwi_files" (VStrList dwi_files) inputnode in
  wire (inl inputnode) dwi_denoise_window denoise_before_combining.

Definition init_merge_and_denoise_wf (dwi_files : list string) (dwi_denoise_window : Z)
    (denoise_before_combining combine_all_dwis : bool)
    (mem_gb omp_nthreads : Z) : Workflow * result Workflow :=
  body dwi_files dwi_denoise_window denoise_before_combining combine_all_dwis
       mem_gb omp_nthreads (new_workflow "merge_and_denoise_wf").

(** The edges that lines 102-133 declare, by the sign of the window and
    by [denoise_before_combining]. *)
Definition wire_edges (window_positive denoise_before_combining : bool) : list Edge :=
  ("inputnode" @ "dwi_files" ~> "merge_dwis" @ "original_files")
  :: (if window_positive then
        if denoise_before_combining then
          ["inputnode" @ "dwi_files" ~> "denoise" @ "in_file";
           "denoise" @ "out_file" ~> "merge_dwis" @ "dwi_files";
           "denoise" @ "noise" ~> "outputnode" @ "noise_image";
           "merge_dwis" @ "out_dwi" ~> "outputnode" @ "merged_image";
           "merge_dwis" @ "out_bval" ~> "outputnode" @ "merged_bval";
           "merge_dwis" @ "out_bvec" ~> "outputnode" @ "merged_bvec"]
        else
          ["inputnode" @ "dwi_files" ~> "merge_dwis" @ "dwi_files";
           "merge_dwis" @ "out_dwi" ~> "denoise" @ "in_file";
           "denoise" @ "noise" ~> "outputnode" @ "noise_image";
           "denoise" @ "out_file" ~> "outputnode" @ "merged_image";
           "merge_dwis" @ "out_bval" ~> "outputnode" @ "merged_bval";
           "merge_dwis" @ "out_bvec" ~> "outputnode" @ "merged_bvec"]
      else
        ["inputnode" @ "dwi_files" ~> "merge_dwis" @ "dwi_files";
         "merge_dwis" @ "out_dwi" ~> "outputnode" @ "merged_image";
         "merge_dwis" @ "out_bval" ~> "outputnode" @ "merged_bval";
         "merge_dwis" @ "out_bvec" ~> "outputnode" @ "merged_bvec"]).

End merge.

(** ** [qsiprep/workflows/dwi/distortion_group_merge.py] *)
Module distortion_group_merge.

Definition DEFAULT_MEMORY_MIN_GB : Q := Qmake 1 100.

(** The names bound at module level (lines 9-25): the imports, the two
    constants and the function itself.  No name is bound anywhere else
    at module level. *)
Definition module_globals : list (string * object) :=
  [("logging", OModule); ("niu", OModule); ("pe", OModule);
   ("init_dwi_derivatives_wf", OFunction); ("Workflow", OClass);
   ("DerivativesDataSink", OClass); ("MRTrixGradientTable", OClass);
   ("GradientPlot", OClass); ("SeriesQC", OClass);
   ("AveragePEPairs", OClass); ("MergeDWIs", OClass);
   ("init_mask_overlap_wf", OFunction);
   ("DEFAULT_MEMORY_MIN_GB", OFloat DEFAULT_MEMORY_MIN_GB); ("LOGGER", OLogger);
   ("init_distortion_group_merge_wf", OFunction)].

Fixpoint assoc {A : Type} (x : string) (l : list (string * A)) : option A :=
  match l with
  | [] => None
  | (k, v) :: r => if String.eqb k x then Some v else assoc x r
  end.

(** Reading a name that the function never assigns: it is looked up at
    module level, and a miss is a [NameError]. *)
Definition load_global (x : string) : M object :=
  match assoc x module_globals with
  | Some o => mret o
  | None => raise (NameError x)
  end.

(** Reading a local variable that is assigned on some paths only. *)
Definition load_local (x : string) (v : option Vertex) : M object :=
  match v with
  | Some o => mret (OVertex o)
  | None => raise (UnboundLocalError x)
  end.

Definition suffixes : list string :=
  ["_image"; "_bval"; "_bvec"; "_original_bvec"; "_b0_ref";
   "_original_image"; "_raw_concatenated_image"].

(** [name.replace('-', '_')] *)
Definition sanitize (name : string) : string := Py.replace "-" "_" name.

Definition sanitized_inputs (inputs_list : list string) : list string :=
  map sanitize inputs_list.

(** Lines 74-77: [input_names] grows by one block of names per suffix. *)
Definition input_names (inputs_list : list string) : list string :=
  fold_left
    (fun input_names suffix =>
       input_names ++ map (fun name => name +:+ suffix) (sanitized_inputs inputs_list))
    suffixes [].

(** Line 78, for a list of groups that is not empty (nipype refuses an
    [IdentityInterface] without fields). *)
Definition inputnode (inputs_list : list string) : Node :=
  mkNode PlainNode (IdentityInterface (input_names inputs_list)) [] "inputnode" [].

Definition outputnode : Node :=
  mkNode PlainNode
         (IdentityInterface ["merged_image"; "merged_bval"; "merged_bvec"; "merged_qc"])
         [] "outputnode" [].

(** [pe.Node(niu.Merge(num_inputs), name=name)] *)
Definition merge_node (num_inputs : nat) (name : string) : Node :=
  mkNode PlainNode (Merge num_inputs) [] name [].

(** [workflow.list_node_names()]: the nodes of nested workflows are
    listed under dotted names, and the list is returned sorted. *)
Fixpoint list_node_names (w : Workflow) : list string :=
  match w with
  | mkWorkflow _ vs _ =>
      sorted
        ((fix go (vs : list (Node + Workflow)) : list string :=
            match vs with
            | [] => []
            | inl n :: r => n_name n :: go r
            | inr sub :: r =>
                map (fun x => wf_name sub +:+ "." +:+ x) (list_node_names sub) ++ go r
            end) vs)
  end.

Definition set_input (k : string) (v : value) (n : Node) : Node :=
  mkNode (n_class n) (n_interface n)
         ((k, v) :: filter (fun kv => negb (String.eqb (fst kv) k)) (n_inputs n))
         (n_name n) (n_kwargs n).

(** [workflow.get_node(path).inputs.k = v] for a dotted [path]. *)
Fixpoint set_node_input (path : list string) (k : string) (v : value) (w : Workflow)
    : Workflow :=
  match path with
  | [] => w
  | [x] =>
      mkWorkflow (wf_name w)
        (map (fun vx => match vx with
                        | inl n => if String.eqb (n_name n) x then inl (set_input k v n) else vx
                        | inr _ => vx
                        end) (wf_vertices w))
        (wf_edges w)
  | x :: rest =>
      mkWorkflow (wf_name w)
        (map (fun vx => match vx with
                        | inr sub => if String.eqb (wf_name sub) x
                                     then inr (set_node_input rest k v sub) else vx
                        | inl _ => vx
                        end) (wf_vertices w))
        (wf_edges w)
  end.

(** Lines 94-106, the connections made for one group: the group's
    seven fields go to port [in<input_num + 1>] of the seven fan-in
    nodes. *)
Definition fan_in_connections
    (inputnode merge_images merge_bval merge_bvec merge_original_bvec
     merge_original_image merge_raw_concatenated_image merge_b0_refs : Vertex)
    (p : nat * string) : list Connection :=
  let '(input_num, input_name) := p in
  let merge_input_name := "in" +:+ format_d (input_num + 1) in
  [(inputnode, merge_images, [(input_name +:+ "_image", merge_input_name)]);
   (inputnode, merge_bval, [(input_name +:+ "_bval", merge_input_name)]);
   (inputnode, merge_bvec, [(input_name +:+ "_bvec", merge_input_name)]);
   (inputnode, merge_original_bvec, [(input_name +:+ "_original_bvec", merge_input_name)]);
   (inputnode, merge_original_image, [(input_name +:+ "_original_image", merge_input_name)]);
   (inputnode, merge_raw_concatenated_image,
      [(input_name +:+ "_raw_concatenated_image", merge_input_name)]);
   (inputnode, merge_b0_refs, [(input_name +:+ "_b0_ref", merge_input_name)])].

Definition fan_in_step
    (inputnode merge_images merge_bval merge_bvec merge_original_bvec
     merge_original_image merge_raw_concatenated_image merge_b0_refs : Vertex)
    (p : nat * string) : M unit :=
  connect
    (map (fun c : Connection => conn c.1.1 c.1.2 c.2)
       (fan_in_connections inputnode merge_images merge_bval merge_bvec merge_original_bvec
          merge_original_image merge_raw_concatenated_image merge_b0_refs p)).

(** Which fan-in node collects which kind of field (lines 97-105). *)
Definition fan_in : list (string * string) :=
  [("_image", "merge_images");
   ("_bval", "merge_bval");
   ("_bvec", "merge_bvec");
   ("_original_bvec", "merge_original_bvec");
   ("_original_image", "merge_original_image");
   ("_raw_concatenated_image", "merge_raw_concatenated_image");
   ("_b0_ref", "merge_b0_refs")].

Section body.

(** The two workflow factories imported from [.qc] and [.derivatives];
    whatever they build takes part in this graph as one vertex. *)
Variable init_mask_overlap_wf : string -> Workflow.
Variable init_dwi_derivatives_wf :
  string -> string -> string -> list string -> string -> bool -> string -> Z -> Workflow.

Definition body (merging_strategy : string) (inputs_list : list string)
    (hmc_model reportlets_dir : string)
    (harmonize_b0_intensities : bool) (b0_threshold : Z)
    (output_prefix source_file output_dir template : string) (shoreline_iters : Z)
    (mem_gb omp_nthreads : Z) (name : string) : M Workflow :=
  let sanitized_inputs := sanitized_inputs inputs_list in
  let input_names := input_names inputs_list in
  let inputnode : Vertex := inl (inputnode inputs_list) in
  let outputnode : Vertex := inl outputnode in
  let num_inputs := length input_names in
  let merge_images : Vertex := inl (merge_node num_inputs "merge_images") in
  let merge_bval : Vertex := inl (merge_node num_inputs "merge_bval") in
  let merge_bvec : Vertex := inl (merge_node num_inputs "merge_bvec") in
  let merge_original_bvec : Vertex := inl (merge_node num_inputs "merge_original_bvec") in
  let merge_original_image : Vertex := inl (merge_node num_inputs "merge_original_image") in
  let merge_b0_refs : Vertex := inl (merge_node num_inputs "merge_b0_refs") in
  let merge_raw_concatenated_image : Vertex :=
    inl (merge_node num_inputs "merge_raw_concatenated_image") in
  (* lines 94-106 *)
  for_each (enumerate sanitized_inputs)
    (fan_in_step inputnode merge_images merge_bval merge_bvec merge_original_bvec
                 merge_original_image merge_raw_concatenated_image merge_b0_refs);;
  (* lines 108-114: [distortion_merger] is bound on two of three paths *)
  distortion_merger ←
    (if String.eqb (lower merging_strategy) "average" then
       let distortion_merger : Vertex :=
         inl (mkNode PlainNode AveragePEPairs [] "distortion_merger" []) in
       connect [
         conn merge_original_bvec distortion_merger [("out", "original_bvec_files")]];;
       mret (Some distortion_merger)
     else if startswith merging_strategy "concat" then
       mret (Some (inl (mkNode PlainNode MergeDWIs [] "distortion_merger" [])))
     else mret None);
  let via_merger (src : Vertex) (ports : list (string * string)) :=
    d ← load_local "distortion_merger" distortion_merger;
    mret (OVertex src, d, ports) in
  let from_merger (dst : Vertex) (ports : list (string * string)) :=
    d ← load_local "distortion_merger" distortion_merger;
    mret (d, OVertex dst, ports) in
  (* lines 116-123 *)
  connect [
    via_merger merge_images [("out", "dwi_files")];
    via_merger merge_bval [("out", "bval_files")];
    via_merger merge_bvec [("out", "bvec_files")];
    via_merger merge_original_image [("out", "bids_dwi_files")];
    via_merger merge_raw_concatenated_image [("out", "raw_concatenated_files")];
    via_merger merge_b0_refs [("out", "b0_refs")]];;
  (* lines 126-150 *)
  let gtab_t1 : Vertex := inl (mkNode PlainNode MRTrixGradientTable [] "gtab_t1" []) in
  let t1_dice_calc : Vertex := inr (init_mask_overlap_wf "t1_dice_calc") in
  let gradient_plot : Vertex :=
    inl (mkNode PlainNode GradientPlot [] "gradient_plot"
                [("run_without_submitting", VBool true)]) in
  let ds_report_gradients : Vertex :=
    inl (mkNode PlainNode DerivativesDataSink
                [("suffix", VStr "sampling_scheme"); ("source_file", VStr source_file)]
                "ds_report_gradients"
                [("run_without_submitting", VBool true);
                 ("mem_gb", VFloat DEFAULT_MEMORY_MIN_GB)]) in
  let dwi_derivatives_wf : Vertex :=
    inr (init_dwi_derivatives_wf output_prefix source_file output_dir ["T1w"]
                                 template false hmc_model shoreline_iters) in
  let series_qc : Vertex :=
    inl (mkNode PlainNode SeriesQC [("output_file_name", VStr output_prefix)]
                "series_qc" []) in
  let ds_series_qc : Vertex :=
    inl (mkNode PlainNode DerivativesDataSink
                [("desc", VStr "ImageQC"); ("suffix", VStr "dwi");
                 ("source_file", VStr source_file); ("base_directory", VStr output_dir)]
                "ds_series_qc"
                [("run_without_submitting", VBool true);
                 ("mem_gb", VFloat DEFAULT_MEMORY_MIN_GB)]) in
  (* lines 152-185 *)
  connect [
    conn inputnode series_qc [("raw_qc_file", "pre_qc"); ("confounds", "confounds_file")];
    conn t1_dice_calc series_qc [("outputnode.dice_score", "t1_dice_score")];
    conn series_qc ds_series_qc [("series_qc_file", "in_file")];
    conn inputnode dwi_derivatives_wf [("dwi_files", "inputnode.source_file")];
    conn inputnode outputnode [("hmc_optimization_data", "hmc_optimization_data")];
    from_merger series_qc [("merged_raw_concatenated", "t1_qc")];
    (transform_dwis_t1 ← load_global "transform_dwis_t1";
     mret (transform_dwis_t1, OVertex t1_dice_calc,
           [("outputnode.resampled_dwi_mask", "inputnode.dwi_mask")]));
    conn outputnode gradient_plot [("bvecs_t1", "final_bvec_file")];
    from_merger gtab_t1 [("out_bval", "bval_file"); ("out_bvec", "bvec_file")];
    conn inputnode t1_dice_calc [("t1_mask", "inputnode.anatomical_mask")];
    conn gtab_t1 outputnode [("gradient_file", "gradient_table_t1")];
    conn outputnode dwi_derivatives_wf
         [("dwi_t1", "inputnode.dwi_t1");
          ("dwi_mask_t1", "inputnode.dwi_mask_t1");
          ("cnr_map_t1", "inputnode.cnr_map_t1");
          ("bvals_t1", "inputnode.bvals_t1");
          ("bvecs_t1", "inputnode.bvecs_t1");
          ("local_bvecs_t1", "inputnode.local_bvecs_t1");
          ("t1_b0_ref", "inputnode.t1_b0_ref");
          ("gradient_table_t1", "inputnode.gradient_table_t1");
          ("confounds", "inputnode.confounds");
          ("hmc_optimization_data", "inputnode.hmc_optimization_data")];
    from_merger gradient_plot
         [("out_bvec", "orig_bvec_files");
          ("out_bval", "orig_bval_files");
          ("original_images", "source_files")];
    conn gradient_plot ds_report_gradients [("plot_file", "in_file")]];;
  (* lines 188-190 *)
  workflow ← get_workflow;
  for_each (list_node_names workflow) (fun node =>
    if startswith (List.last (split "." node) "") "ds_report"
    then modify (set_node_input (split "." node) "base_directory" (VStr reportlets_dir))
    else mret tt);;
  get_workflow.

Definition init_distortion_group_merge_wf (merging_strategy : string)
    (inputs_list : list string) (hmc_model reportlets_dir : string)
    (harmonize_b0_intensities : bool) (b0_threshold : Z)
    (output_prefix source_file output_dir template : string) (shoreline_iters : Z)
    (mem_gb omp_nthreads : Z) (name : string) : Workflow * result Workflow :=
  body merging_strategy inputs_list hmc_model reportlets_dir
       harmonize_b0_intensities b0_threshold
       output_prefix source_file output_dir template shoreline_iters
       mem_gb omp_nthreads name (new_workflow name).

End body.

(** The graph once the loop of lines 94-106 has run over the groups
    [groups], numbered from [k], starting from the graph [w]. *)
Definition fan_in_graph (inputs_list : list string) (groups : list (nat * string))
    (w : Workflow) : Workflow :=
  let n := length (input_names inputs_list) in
  fold_left
    (fun w p =>
       connect_graph
         (fan_in_connections
            (inl (inputnode inputs_list))
            (inl (merge_node n "merge_images")) (inl (merge_node n "merge_bval"))
            (inl (merge_node n "merge_bvec")) (inl (merge_node n "merge_original_bvec"))
            (inl (merge_node n "merge_original_image"))
            (inl (merge_node n "merge_raw_concatenated_image"))
            (inl (merge_node n "merge_b0_refs")) p) w)
    groups w.

(** The two merge nodes of lines 109 and 114. *)
Definition averager : Node := mkNode PlainNode AveragePEPairs [] "distortion_merger" [].
Definition concatenator : Node := mkNode PlainNode MergeDWIs [] "distortion_merger" [].

(** Lines 116-123 for a merge node [merger]. *)
Definition merger_connections (inputs_list : list string) (merger : Node) : list Connection :=
  let n := length (input_names inputs_list) in
  [(inl (merge_node n "merge_images"), inl merger, [("out", "dwi_files")]);
   (inl (merge_node n "merge_bval"), inl merger, [("out", "bval_files")]);
   (inl (merge_node n "merge_bvec"), inl merger, [("out", "bvec_files")]);
   (inl (merge_node n "merge_original_image"), inl merger, [("out", "bids_dwi_files")]);
   (inl (merge_node n "merge_raw_concatenated_image"), inl merger,
      [("out", "raw_concatenated_files")]);
   (inl (merge_node n "merge_b0_refs"), inl merger, [("out", "b0_refs")])].

(** The edges that one pass of the loop declares. *)
Definition fan_in_edges (p : nat * string) : list Edge :=
  let port := "in" +:+ format_d (p.1 + 1) in
  ["inputnode" @ (p.2 +:+ "_image") ~> "merge_images" @ port;
   "inputnode" @ (p.2 +:+ "_bval") ~> "merge_bval" @ port;
   "inputnode" @ (p.2 +:+ "_bvec") ~> "merge_bvec" @ port;
   "inputnode" @ (p.2 +:+ "_original_bvec") ~> "merge_original_bvec" @ port;
   "inputnode" @ (p.2 +:+ "_original_image") ~> "merge_original_image" @ port;
   "inputnode" @ (p.2 +:+ "_raw_concatenated_image") ~> "merge_raw_concatenated_image" @ port;
   "inputnode" @ (p.2 +:+ "_b0_ref") ~> "merge_b0_refs" @ port].

(** The edges that lines 116-123 declare. *)
Definition merger_edges : list Edge :=
  ["merge_images" @ "out" ~> "distortion_merger" @ "dwi_files";
   "merge_bval" @ "out" ~> "distortion_merger" @ "bval_files";
   "merge_bvec" @ "out" ~> "distortion_merger" @ "bvec_files";
   "merge_original_image" @ "out" ~> "distortion_merger" @ "bids_dwi_files";
   "merge_raw_concatenated_image" @ "out" ~> "distortion_merger" @ "raw_concatenated_files";
   "merge_b0_refs" @ "out" ~> "distortion_merger" @ "b0_refs"].

(** The graph at the point where the body stops, on each of the three
    paths through lines 108-114. *)
Definition unmerged_graph (inputs_list : list string) (name : string) : Workflow :=
  fan_in_graph inputs_list (enumerate (sanitized_inputs inputs_list)) (new_workflow name).

Definition average_graph (inputs_list : list string) (name : string) : Workflow :=
  connect_graph (merger_connections inputs_list averager)
    (connect_graph
       [(inl (merge_node (length (input_names inputs_list)) "merge_original_bvec"),
         inl averager, [("out", "original_bvec_files")])]
       (unmerged_graph inputs_list name)).

Definition concat_graph (inputs_list : list string) (name : string) : Workflow :=
  connect_graph (merger_connections inputs_list concatenator)
    (unmerged_graph inputs_list name).

(** An edge that is not one of the connections to the series QC of
    lines 153-155: it does not arrive at [series_qc] and does not leave
    a port named [raw_qc_file] or [confounds]. *)
Definition no_qc_edge (e : Edge) : Prop :=
  e_dst e ≠ "series_qc" ∧ e_srcfield e ≠ "raw_qc_file" ∧ e_srcfield e ≠ "confounds".

(** The simplest factories to run the function with: each returns an
    empty workflow. *)
Definition empty_mask_overlap_wf (name : string) : Workflow := new_workflow name.
Definition empty_dwi_derivatives_wf (output_prefix source_file output_dir : string)
    (output_spaces : list string) (template : string) (write_local_bvecs : bool)
    (hmc_model : string) (shoreline_iters : Z) : Workflow :=
  new_workflow "dwi_derivatives_wf".

(** The strategy test of lines 108 and 113. *)
Definition selects_average (merging_strategy : string) : bool :=
  String.eqb (lower merging_strategy) "average".
Definition selects_concat (merging_strategy : string) : bool :=
  negb (selects_average merging_strategy) && startswith merging_strategy "concat".

End distortion_group_merge.

(** ** Shape of a graph

    What can be asked of a graph once it is built: which vertices it
    has, whether every edge joins two of them, which input ports are
    connected, and whether it can be run in some order. *)
Definition vertex_names (w : Workflow) : list string := map vertex_name (wf_vertices w).

(** Every edge joins two vertices of the graph. *)
Definition closed (w : Workflow) : Prop :=
  Forall (fun e => e_src e ∈ vertex_names w ∧ e_dst e ∈ vertex_names w) (wf_edges w).

(** The input ports [(dst, dstfield)] that receive a connection, one
    entry per edge. *)
Definition input_ports (w : Workflow) : list (string * string) :=
  map (fun e => (e_dst e, e_dstfield e)) (wf_edges w).

(** The output ports of one vertex that are read by an edge. *)
Definition fields_read (w : Workflow) (src : string) : list string :=
  map e_srcfield (filter (fun e => e_src e = src) (wf_edges w)).

(** [y] depends, through one or more edges, on [x]. *)
Inductive reachable (w : Workflow) : string -> string -> Prop :=
| reach_edge (e : Edge) : e ∈ wf_edges w -> reachable w (e_src e) (e_dst e)
| reach_trans (x y z : string) : reachable w x y -> reachable w y z -> reachable w x z.

Definition acyclic (w : Workflow) : Prop := forall x, ¬ reachable w x x.

(** A numbering of the vertices along which every edge goes up. *)
Definition ranked (rank : string -> nat) (w : Workflow) : Prop :=
  Forall (fun e => rank (e_src e) < rank (e_dst e)) (wf_edges w).

(** The stage of a vertex of the distortion-group merge: the input
    node, then the fan-in nodes, then the merge node. *)
Definition distortion_stage (x : string) : nat :=
  if String.eqb x "inputnode" then 0
  else if String.eqb x "distortion_merger" then 2
  else 1.

(** Two identifiers that agree except where one has ['-'] and the other
    ['_']. *)
Definition dash_like (c : ascii) : bool := Ascii.eqb c "-" || Ascii.eqb c "_".

Fixpoint same_up_to_dash (a b : string) : bool :=
  match a, b with
  | EmptyString, EmptyString => true
  | String c a', String d b' =>
      (Ascii.eqb c d || (dash_like c && dash_like d)) && same_up_to_dash a' b'
  | _, _ => false
  end.

(** Where [init_distortion_group_merge_wf] stops, by the strategy
    string alone: the graph it has built and the exception it raises. *)
Definition distortion_exit (merging_strategy : string) (inputs_list : list string)
    (name : string) : Workflow * result Workflow :=
  if distortion_group_merge.selects_average merging_strategy then
    (distortion_group_merge.average_graph inputs_list name,
     Raise (NameError "transform_dwis_t1"))
  else if startswith merging_strategy "concat" then
    (distortion_group_merge.concat_graph inputs_list name,
     Raise (NameError "transform_dwis_t1"))
  else
    (distortion_group_merge.unmerged_graph inputs_list name,
     Raise (UnboundLocalError "distortion_merger")).

(** The names a vertex of the distortion-group merge can have when the
    function stops. *)
Definition fan_in_and_merger_names : list string :=
  "inputnode" :: map snd distortion_group_merge.fan_in ++ ["distortion_merger"].

(** All connections of the loop of lines 94-106 over [groups]. *)
Definition all_fan_in_connections (inputs_list : list string) (groups : list (nat * string))
    : list Connection :=
  let n := length (distortion_group_merge.input_names inputs_list) in
  flat_map
    (distortion_group_merge.fan_in_connections
       (inl (distortion_group_merge.inputnode inputs_list))
       (inl (distortion_group_merge.merge_node n "merge_images"))
       (inl (distortion_group_merge.merge_node n "merge_bval"))
       (inl (distortion_group_merge.merge_node n "merge_bvec"))
       (inl (distortion_group_merge.merge_node n "merge_original_bvec"))
       (inl (distortion_group_merge.merge_node n "merge_original_image"))
       (inl (distortion_group_merge.merge_node n "merge_raw_concatenated_image"))
       (inl (distortion_group_merge.merge_node n "merge_b0_refs")))
    groups.

(** The edges at the merge node when the function stops: those of
    lines 110-112 and 116-123 on the path taken. *)
Definition exit_merger_edges (merging_strategy : string) : list Edge :=
  if distortion_group_merge.selects_average merging_strategy then
    ("merge_original_bvec" @ "out" ~> "distortion_merger" @ "original_bvec_files")
      :: distortion_group_merge.merger_edges
  else if startswith merging_strategy "concat" then distortion_group_merge.merger_edges
  else [].

(** * Properties *)

(** A [Forall] over a list that is written out, one goal per element. *)
Ltac each_element :=
  repeat (apply Forall_cons; split); try apply List.Forall_nil.

(** Membership in a list of literals, by computation. *)
Ltac member_by_computation := apply (bool_decide_unpack _); vm_compute; exact I.

(** Case analysis on membership in a list that is written out. *)
Ltac each_member H :=
  repeat (apply elem_of_cons in H as [H|H]; [try subst|]);
  [..|apply elem_of_nil in H; destruct H].

(** ** The definitions on small inputs *)

Example lower_mixed_case : lower "AvErAgE" = "average".
Proof. reflexivity. Qed.

Example sanitize_dir_AP : distortion_group_merge.sanitize "dir-AP" = "dir_AP".
Proof. reflexivity. Qed.

Example port_of_tenth_group : "in" +:+ format_d (9 + 1) = "in10".
Proof. reflexivity. Qed.

Example split_dotted_name :
  split "." "dwi_derivatives_wf.ds_report_x" = ["dwi_derivatives_wf"; "ds_report_x"].
Proof. reflexivity. Qed.

Example input_names_two_groups :
  distortion_group_merge.input_names ["dir-AP"; "dir-PA"]
  = ["dir_AP_image"; "dir_PA_image"; "dir_AP_bval"; "dir_PA_bval";
     "dir_AP_bvec"; "dir_PA_bvec"; "dir_AP_original_bvec"; "dir_PA_original_bvec";
     "dir_AP_b0_ref"; "dir_PA_b0_ref"; "dir_AP_original_image"; "dir_PA_original_image";
     "dir_AP_raw_concatenated_image"; "dir_PA_raw_concatenated_image"].
Proof. reflexivity. Qed.

Example concat_two_groups :
  let r := distortion_group_merge.init_distortion_group_merge_wf
             distortion_group_merge.empty_mask_overlap_wf
             distortion_group_merge.empty_dwi_derivatives_wf
             "concatenate" ["dir-AP"; "dir-PA"] "3dSHORE" "/work/reportlets" false 100
             "sub-01" "sub-01_dwi.nii.gz" "/out" "MNI152NLin2009cAsym" 2 3 1
             "distortion_group_merge_wf" in
  outcome r = Raise (NameError "transform_dwis_t1")
  ∧ edges_into (graph_at_exit r) "merge_bval"
    = ["inputnode" @ "dir_AP_bval" ~> "merge_bval" @ "in1";
       "inputnode" @ "dir_PA_bval" ~> "merge_bval" @ "in2"]
  ∧ feeds (graph_at_exit r) "distortion_merger" "bval_files" = [("merge_bval", "out")].
Proof. cbv zeta. repeat split; reflexivity. Qed.

Example node_names_of_nested_workflow :
  distortion_group_merge.list_node_names
    (mkWorkflow "wf"
       [inl (mkNode PlainNode GradientPlot [] "gradient_plot" []);
        inr (mkWorkflow "dwi_derivatives_wf"
               [inl (mkNode PlainNode DerivativesDataSink [] "ds_report_x" [])] [])] [])
  = ["dwi_derivatives_wf.ds_report_x"; "gradient_plot"].
Proof. reflexivity. Qed.

Example base_directory_of_nested_sink :
  distortion_group_merge.set_node_input ["dwi_derivatives_wf"; "ds_report_x"]
    "base_directory" (VStr "/work/reportlets")
    (mkWorkflow "wf"
       [inr (mkWorkflow "dwi_derivatives_wf"
               [inl (mkNode PlainNode DerivativesDataSink [] "ds_report_x" [])] [])] [])
  = mkWorkflow "wf"
      [inr (mkWorkflow "dwi_derivatives_wf"
              [inl (mkNode PlainNode DerivativesDataSink
                           [("base_directory", VStr "/work/reportlets")] "ds_report_x" [])]
              [])] [].
Proof. reflexivity. Qed.

(** ** The monad *)

Lemma run_bind {A B : Type} (m : M A) (f : A -> M B) (w : Workflow) :
  (m ≫= f) w = match m w with
               | (w', Return a) => f a w'
               | (w', Raise e) => (w', Raise e)
               end.
Proof. reflexivity. Qed.

Lemma eval_list_cons_return {A : Type} (x : M A) (xs : list (M A)) (a : A) (w w1 : Workflow) :
  x w = (w1, Return a) ->
  eval_list (x :: xs) w = match eval_list xs w1 with
                          | (w', Return r) => (w', Return (a :: r))
                          | (w', Raise e) => (w', Raise e)
                          end.
Proof.
  intros Hx. cbn [eval_list]. rewrite run_bind, Hx, run_bind.
  destruct (eval_list xs w1) as [w' [r|e]]; reflexivity.
Qed.

Lemma eval_list_cons_raise {A : Type} (x : M A) (xs : list (M A)) (e : exn) (w w1 : Workflow) :
  x w = (w1, Raise e) -> eval_list (x :: xs) w = (w1, Raise e).
Proof. intros Hx. cbn [eval_list]. rewrite run_bind, Hx. reflexivity. Qed.

Lemma eval_list_conn (cs : list Connection) (w : Workflow) :
  eval_list (map (fun c : Connection => conn c.1.1 c.1.2 c.2) cs) w
  = (w, Return (map (fun c : Connection => (OVertex c.1.1, OVertex c.1.2, c.2)) cs)).
Proof.
  induction cs as [|c cs IH]; [reflexivity|].
  cbn [map]. erewrite eval_list_cons_return by reflexivity. rewrite IH. reflexivity.
Qed.

Lemma eval_list_as_connection (cs : list Connection) (w : Workflow) :
  eval_list (map as_connection
               (map (fun c : Connection => (OVertex c.1.1, OVertex c.1.2, c.2)) cs)) w
  = (w, Return cs).
Proof.
  induction cs as [|[[a b] p] cs IH]; [reflexivity|].
  cbn [map fst snd]. erewrite eval_list_cons_return by reflexivity. rewrite IH. reflexivity.
Qed.

Lemma connect_conn (cs : list Connection) (w : Workflow) :
  connect (map (fun c : Connection => conn c.1.1 c.1.2 c.2) cs) w
  = (connect_graph cs w, Return tt).
Proof.
  unfold connect. rewrite run_bind, eval_list_conn, run_bind, eval_list_as_connection.
  reflexivity.
Qed.

(** ** Graph updates *)

Lemma wf_edges_add_vertex (v : Vertex) (w : Workflow) :
  wf_edges (add_vertex v w) = wf_edges w.
Proof. unfold add_vertex. destruct (has_vertex w (vertex_name v)); reflexivity. Qed.

Lemma wf_edges_connect1 (w : Workflow) (c : Connection) :
  wf_edges (connect1 w c) = wf_edges w ++ connection_edges c.
Proof.
  destruct c as [[src dst] ports]. cbn [connect1 add_edges wf_edges].
  rewrite !wf_edges_add_vertex. reflexivity.
Qed.

Lemma wf_edges_connect_graph (cs : list Connection) (w : Workflow) :
  wf_edges (connect_graph cs w) = wf_edges w ++ flat_map connection_edges cs.
Proof.
  unfold connect_graph. revert w.
  induction cs as [|c cs IH]; intros w; cbn [fold_left flat_map].
  - symmetry. apply app_nil_r.
  - rewrite IH, wf_edges_connect1, <- app_assoc. reflexivity.
Qed.

Lemma find_snoc {A : Type} (f : A -> bool) (l : list A) (v : A) :
  find f (l ++ [v]) = match find f l with
                      | Some u => Some u
                      | None => if f v then Some v else None
                      end.
Proof.
  induction l as [|a l IH]; cbn [app find]; [reflexivity|].
  destruct (f a); [reflexivity | exact IH].
Qed.

Lemma get_node_add_vertex (v : Vertex) (w : Workflow) (x : string) :
  get_node (add_vertex v w) x
  = match get_node w x with
    | Some u => Some u
    | None => if String.eqb (vertex_name v) x then Some v else None
    end.
Proof.
  unfold add_vertex, get_node, has_vertex.
  destruct (existsb _ (wf_vertices w)) eqn:E.
  - destruct (find _ (wf_vertices w)) as [u|] eqn:F; [reflexivity|].
    destruct (String.eqb (vertex_name v) x) eqn:N; [|reflexivity].
    apply String.eqb_eq in N. subst x.
    apply existsb_exists in E as [u [Hin Hu]].
    apply (find_none _ _ F) in Hin. cbv beta in Hin. congruence.
  - cbn [wf_vertices].
    exact (find_snoc (fun u => String.eqb (vertex_name u) x) (wf_vertices w) v).
Qed.

Lemma get_node_add_edges (es : list Edge) (w : Workflow) (x : string) :
  get_node (add_edges es w) x = get_node w x.
Proof. reflexivity. Qed.

(** A vertex name that no connection mentions stays out of the graph. *)
Lemma get_node_connect_graph_other (cs : list Connection) (w : Workflow) (x : string) :
  Forall (fun c : Connection => vertex_name c.1.1 ≠ x ∧ vertex_name c.1.2 ≠ x) cs ->
  get_node (connect_graph cs w) x = get_node w x.
Proof.
  unfold connect_graph. intros H. revert w.
  induction H as [|[[src dst] ports] cs [Hs Hd] _ IH]; intros w; cbn [fold_left]; [reflexivity|].
  rewrite IH. cbn [connect1 fst snd] in *. rewrite get_node_add_edges, !get_node_add_vertex.
  destruct (get_node w x); [reflexivity|].
  apply String.eqb_neq in Hs, Hd. rewrite Hs, Hd. reflexivity.
Qed.

(** ** Strings *)

Lemma list_ascii_of_string_append (s t : string) :
  list_ascii_of_string (s +:+ t) = list_ascii_of_string s ++ list_ascii_of_string t.
Proof.
  induction s as [|c s IH]; [reflexivity|].
  change (String c s +:+ t) with (String c (s +:+ t)).
  cbn [list_ascii_of_string app]. f_equal. exact IH.
Qed.

Lemma list_ascii_of_string_length (s : string) :
  length (list_ascii_of_string s) = String.length s.
Proof. induction s as [|c s IH]; [reflexivity|]. cbn. f_equal. exact IH. Qed.

(** A string that ends in [s] shows [s] reversed at the start of its
    reversal: a test that computes on literals. *)
Lemma append_ends (g s t : string) :
  g +:+ s = t ->
  take (String.length s) (rev (list_ascii_of_string t)) = rev (list_ascii_of_string s).
Proof.
  intros <-. rewrite list_ascii_of_string_append, rev_app_distr.
  rewrite <- list_ascii_of_string_length, <- length_rev.
  apply take_app_length.
Qed.

Lemma append_inj_suffix (g1 g2 s : string) : g1 +:+ s = g2 +:+ s -> g1 = g2.
Proof.
  intros H. apply (f_equal list_ascii_of_string) in H.
  rewrite !list_ascii_of_string_append in H. apply app_inv_tail in H.
  rewrite <- (string_of_list_ascii_of_string g1), <- (string_of_list_ascii_of_string g2).
  f_equal. exact H.
Qed.

(** ** Merging distortion groups: the three paths *)
Section distortion_group_merge_paths.
Import distortion_group_merge.

Variable init_mask_overlap_wf : string -> Workflow.
Variable init_dwi_derivatives_wf :
  string -> string -> string -> list string -> string -> bool -> string -> Z -> Workflow.
Variables (merging_strategy : string) (inputs_list : list string).
Variables (hmc_model reportlets_dir : string).
Variables (harmonize_b0_intensities : bool) (b0_threshold : Z).
Variables (output_prefix source_file output_dir template : string).
Variables (shoreline_iters mem_gb omp_nthreads : Z) (name : string).

#[local] Abbreviation run :=
  (init_distortion_group_merge_wf init_mask_overlap_wf init_dwi_derivatives_wf
     merging_strategy inputs_list hmc_model reportlets_dir
     harmonize_b0_intensities b0_threshold
     output_prefix source_file output_dir template shoreline_iters
     mem_gb omp_nthreads name).

Lemma fan_in_loop (groups : list (nat * string)) (w : Workflow) :
  let n := length (input_names inputs_list) in
  for_each groups
    (fan_in_step (inl (inputnode inputs_list))
       (inl (merge_node n "merge_images")) (inl (merge_node n "merge_bval"))
       (inl (merge_node n "merge_bvec")) (inl (merge_node n "merge_original_bvec"))
       (inl (merge_node n "merge_original_image"))
       (inl (merge_node n "merge_raw_concatenated_image"))
       (inl (merge_node n "merge_b0_refs"))) w
  = (fan_in_graph inputs_list groups w, Return tt).
Proof.
  intros n. revert w.
  induction groups as [|p groups IH]; intros w; [reflexivity|].
  cbn [for_each]. rewrite run_bind. unfold fan_in_step at 1. rewrite connect_conn.
  rewrite IH. reflexivity.
Qed.

Lemma run_average :
  selects_average merging_strategy = true ->
  run = (average_graph inputs_list name, Raise (NameError "transform_dwis_t1")).
Proof.
  unfold selects_average. intros Hs.
  unfold init_distortion_group_merge_wf, body.
  rewrite run_bind, fan_in_loop, Hs. reflexivity.
Qed.

Lemma run_concat :
  selects_concat merging_strategy = true ->
  run = (concat_graph inputs_list name, Raise (NameError "transform_dwis_t1")).
Proof.
  unfold selects_concat, selects_average. intros [Ha Hc]%andb_prop.
  apply negb_true_iff in Ha.
  unfold init_distortion_group_merge_wf, body.
  rewrite run_bind, fan_in_loop, Ha, Hc. reflexivity.
Qed.

Lemma run_unrecognized :
  selects_average merging_strategy = false ->
  startswith merging_strategy "concat" = false ->
  run = (unmerged_graph inputs_list name, Raise (UnboundLocalError "distortion_merger")).
Proof.
  unfold selects_average. intros Ha Hc.
  unfold init_distortion_group_merge_wf, body.
  rewrite run_bind, fan_in_loop, Ha, Hc. reflexivity.
Qed.

End distortion_group_merge_paths.

(** ** The graph of the fan-in *)
Section fan_in_graph.
Import distortion_group_merge.

Variables (inputs_list : list string) (name : string).

Lemma fan_in_connections_edges (p : nat * string) (a b c d e f g h : Vertex) :
  vertex_name a = "inputnode" -> vertex_name b = "merge_images" ->
  vertex_name c = "merge_bval" -> vertex_name d = "merge_bvec" ->
  vertex_name e = "merge_original_bvec" -> vertex_name f = "merge_original_image" ->
  vertex_name g = "merge_raw_concatenated_image" -> vertex_name h = "merge_b0_refs" ->
  flat_map connection_edges (fan_in_connections a b c d e f g h p) = fan_in_edges p.
Proof.
  intros Ha Hb Hc Hd He Hf Hg Hh. destruct p as [i x].
  cbn [fan_in_connections flat_map connection_edges map app fst snd].
  rewrite Ha, Hb, Hc, Hd, He, Hf, Hg, Hh. reflexivity.
Qed.

Lemma wf_edges_fan_in_graph (groups : list (nat * string)) (w : Workflow) :
  wf_edges (fan_in_graph inputs_list groups w) = wf_edges w ++ flat_map fan_in_edges groups.
Proof.
  unfold fan_in_graph. revert w.
  induction groups as [|p groups IH]; intros w; cbn [fold_left flat_map].
  - symmetry. apply app_nil_r.
  - rewrite IH, wf_edges_connect_graph, fan_in_connections_edges by reflexivity.
    rewrite <- app_assoc. reflexivity.
Qed.

Lemma get_node_fan_in_graph (groups : list (nat * string)) (w : Workflow) :
  get_node (fan_in_graph inputs_list groups w) "distortion_merger"
  = get_node w "distortion_merger".
Proof.
  unfold fan_in_graph. revert w.
  induction groups as [|[i x] groups IH]; intros w; cbn [fold_left]; [reflexivity|].
  rewrite IH. apply get_node_connect_graph_other.
  unfold fan_in_connections. repeat constructor; cbn; discriminate.
Qed.

Lemma wf_edges_unmerged_graph :
  wf_edges (unmerged_graph inputs_list name)
  = flat_map fan_in_edges (enumerate (sanitized_inputs inputs_list)).
Proof. unfold unmerged_graph. rewrite wf_edges_fan_in_graph. reflexivity. Qed.

Lemma wf_edges_concat_graph :
  wf_edges (concat_graph inputs_list name)
  = flat_map fan_in_edges (enumerate (sanitized_inputs inputs_list)) ++ merger_edges.
Proof.
  unfold concat_graph. rewrite wf_edges_connect_graph, wf_edges_unmerged_graph. reflexivity.
Qed.

Lemma wf_edges_average_graph :
  wf_edges (average_graph inputs_list name)
  = flat_map fan_in_edges (enumerate (sanitized_inputs inputs_list))
    ++ ["merge_original_bvec" @ "out" ~> "distortion_merger" @ "original_bvec_files"]
    ++ merger_edges.
Proof.
  unfold average_graph.
  rewrite !wf_edges_connect_graph, wf_edges_unmerged_graph, <- app_assoc. reflexivity.
Qed.

Lemma get_node_unmerged_graph :
  get_node (unmerged_graph inputs_list name) "distortion_merger" = None.
Proof. unfold unmerged_graph. rewrite get_node_fan_in_graph. reflexivity. Qed.

Lemma get_node_concat_graph :
  get_node (concat_graph inputs_list name) "distortion_merger" = Some (inl concatenator).
Proof.
  unfold concat_graph, connect_graph, merger_connections. cbn [fold_left connect1].
  repeat first [rewrite get_node_add_edges | rewrite get_node_add_vertex].
  rewrite get_node_unmerged_graph. reflexivity.
Qed.

Lemma get_node_average_graph :
  get_node (average_graph inputs_list name) "distortion_merger" = Some (inl averager).
Proof.
  unfold average_graph, connect_graph, merger_connections. cbn [fold_left connect1].
  repeat first [rewrite get_node_add_edges | rewrite get_node_add_vertex].
  rewrite get_node_unmerged_graph. reflexivity.
Qed.

End fan_in_graph.

(** ** Slot names *)
Section slot_names.
Import distortion_group_merge.

Lemma input_names_blocks (inputs_list : list string) :
  input_names inputs_list
  = flat_map (fun suffix => map (fun name => name +:+ suffix) (sanitized_inputs inputs_list))
             suffixes.
Proof.
  unfold input_names, suffixes. cbn [fold_left flat_map].
  rewrite app_nil_l, app_nil_r, <- !app_assoc. reflexivity.
Qed.

Lemma elem_of_input_names (inputs_list : list string) (x : string) :
  x ∈ input_names inputs_list
  <-> exists g s, g ∈ sanitized_inputs inputs_list ∧ s ∈ suffixes ∧ x = g +:+ s.
Proof.
  rewrite input_names_blocks, list_elem_of_In, in_flat_map. split.
  - intros [s [Hs Hx]]. apply in_map_iff in Hx as [g [<- Hg]].
    exists g, s. rewrite !list_elem_of_In. auto.
  - intros [g [s [Hg [Hs ->]]]]. exists s. rewrite <- list_elem_of_In. split; [exact Hs|].
    apply in_map_iff. exists g. rewrite <- list_elem_of_In. auto.
Qed.

Lemma length_input_names (inputs_list : list string) :
  length (input_names inputs_list) = 7 * length inputs_list.
Proof.
  rewrite input_names_blocks. unfold suffixes, sanitized_inputs. cbn [flat_map].
  rewrite !length_app, !length_map. cbn [length]. lia.
Qed.

Lemma raw_qc_file_not_a_slot (inputs_list : list string) :
  "raw_qc_file" ∉ input_names inputs_list.
Proof.
  intros [g [s [_ [Hin Heq]]]]%elem_of_input_names.
  symmetry in Heq. apply append_ends in Heq.
  unfold suffixes in Hin. each_member Hin; vm_compute in Heq; discriminate.
Qed.

Lemma confounds_not_a_slot (inputs_list : list string) :
  "confounds" ∉ input_names inputs_list.
Proof.
  intros [g [s [_ [Hin Heq]]]]%elem_of_input_names.
  symmetry in Heq. apply append_ends in Heq.
  unfold suffixes in Hin. each_member Hin; vm_compute in Heq; discriminate.
Qed.

Lemma append_last (g s : string) (c : ascii) :
  last (list_ascii_of_string s) = Some c ->
  last (list_ascii_of_string (g +:+ s)) = Some c.
Proof.
  intros H. rewrite list_ascii_of_string_append, last_app, H. reflexivity.
Qed.

Lemma group_confounds_not_a_slot (inputs_list : list string) (g : string) :
  g +:+ "_confounds" ∉ input_names inputs_list.
Proof.
  intros [g' [s [_ [Hin Heq]]]]%elem_of_input_names.
  apply (f_equal (fun x => last (list_ascii_of_string x))) in Heq.
  rewrite (append_last g "_confounds" "s") in Heq by reflexivity.
  unfold suffixes in Hin.
  each_member Hin;
    match type of Heq with
    | _ = last (list_ascii_of_string (_ +:+ ?s)) =>
        let c := eval vm_compute in (last (list_ascii_of_string s)) in
        match c with
        | Some ?c => rewrite (append_last g' s c) in Heq by reflexivity
        end
    end; discriminate.
Qed.

End slot_names.

(** ** Merge and denoise *)
Section merge_and_denoise.
Import merge.

(** The function stops at line 92, whatever it is given: the workflow
    exists by then, and nothing else. *)
Lemma run_stops_at_inputnode (dwi_files : list string) (dwi_denoise_window : Z)
    (denoise_before_combining combine_all_dwis : bool) (mem_gb omp_nthreads : Z) :
  init_merge_and_denoise_wf dwi_files dwi_denoise_window denoise_before_combining
    combine_all_dwis mem_gb omp_nthreads
  = (new_workflow "merge_and_denoise_wf", Raise (TypeError "iterfield")).
Proof. reflexivity. Qed.

(** Lines 96-135, run on a graph [w] with an input node in hand, do
    return, and declare the edges of [wire_edges]: the input files first
    to [original_files] of the merge node, then one of the three
    wirings. *)
Lemma wire_returns (inputnode : Vertex) (dwi_denoise_window : Z)
    (denoise_before_combining : bool) (w : Workflow) :
  vertex_name inputnode = "inputnode" ->
  exists g,
    wire inputnode dwi_denoise_window denoise_before_combining w = (g, Return g)
    ∧ wf_edges g
      = wf_edges w ++ wire_edges (dwi_denoise_window >? 0)%Z denoise_before_combining.
Proof.
  intros Hname. unfold wire, wire_edges.
  destruct (dwi_denoise_window >? 0)%Z; [destruct denoise_before_combining|];
    (eexists; split; [reflexivity|]);
    rewrite !wf_edges_connect_graph;
    cbn [flat_map connection_edges map app fst snd vertex_name n_name
         merge_dwis outputnode];
    rewrite ?Hname, <- app_assoc; reflexivity.
Qed.

End merge_and_denoise.

(** C7, at the inputs of the claim.  With [dwi_denoise_window == 0] the
    function does not return a workflow: line 92 calls [pe.MapNode]
    without [iterfield] and raises [TypeError] before the window is
    read.  At that point the graph has no vertex and no edge: nothing
    feeds [dwi_files] of the merge node, and nothing feeds
    [merged_image], [merged_bval] or [merged_bvec]. *)
Theorem C7_window_zero_raises_TypeError
    (dwi_files : list string) (denoise_before_combining combine_all_dwis : bool)
    (mem_gb omp_nthreads : Z) :
  let r := merge.init_merge_and_denoise_wf dwi_files 0 denoise_before_combining
             combine_all_dwis mem_gb omp_nthreads in
  let g := graph_at_exit r in
  outcome r = Raise (TypeError "iterfield")
  ∧ wf_vertices g = []
  ∧ wf_edges g = []
  ∧ feeds g "merge_dwis" "dwi_files" = []
  ∧ feeds g "outputnode" "merged_image" = []
  ∧ feeds g "outputnode" "merged_bval" = []
  ∧ feeds g "outputnode" "merged_bvec" = [].
Proof. cbv zeta. rewrite run_stops_at_inputnode. repeat split; reflexivity. Qed.

(** C6, at the inputs of the claim.  With [dwi_denoise_window > 0] the
    function stops at line 92 with [TypeError], for either value of
    [denoise_before_combining]: no denoise node is created, nothing is
    fed to it or to the merge node, and neither [merged_image] nor
    [noise_image] has a source. *)
Theorem C6_positive_window_raises_TypeError
    (dwi_files : list string) (dwi_denoise_window : Z)
    (denoise_before_combining combine_all_dwis : bool) (mem_gb omp_nthreads : Z) :
  (0 < dwi_denoise_window)%Z ->
  let r := merge.init_merge_and_denoise_wf dwi_files dwi_denoise_window
             denoise_before_combining combine_all_dwis mem_gb omp_nthreads in
  let g := graph_at_exit r in
  outcome r = Raise (TypeError "iterfield")
  ∧ get_node g "denoise" = None
  ∧ feeds g "denoise" "in_file" = []
  ∧ feeds g "merge_dwis" "dwi_files" = []
  ∧ feeds g "outputnode" "noise_image" = []
  ∧ feeds g "outputnode" "merged_image" = [].
Proof. intros _. cbv zeta. rewrite run_stops_at_inputnode. repeat split; reflexivity. Qed.

Lemma C6_witness :
  (0 < 7)%Z
  ∧ outcome (merge.init_merge_and_denoise_wf
               ["sub-01_dir-AP_dwi.nii.gz"; "sub-01_dir-PA_dwi.nii.gz"]
               7 true true 1 1)
    = Raise (TypeError "iterfield").
Proof.
  split; [lia|].
  apply (C6_positive_window_raises_TypeError
           ["sub-01_dir-AP_dwi.nii.gz"; "sub-01_dir-PA_dwi.nii.gz"] 7 true true 1 1).
  lia.
Defined.

(** C3, as the code has it.  The function does not look at
    [combine_all_dwis]: a call gives the same result for either value of
    it, and what it raises is not a ConfigError. *)
Theorem C3_combine_all_dwis_not_checked
    (dwi_files : list string) (dwi_denoise_window : Z)
    (denoise_before_combining combine_all_dwis combine_all_dwis' : bool)
    (mem_gb omp_nthreads : Z) :
  let r := merge.init_merge_and_denoise_wf dwi_files dwi_denoise_window
             denoise_before_combining combine_all_dwis mem_gb omp_nthreads in
  r = merge.init_merge_and_denoise_wf dwi_files dwi_denoise_window
        denoise_before_combining combine_all_dwis' mem_gb omp_nthreads
  ∧ ¬ (exists e, outcome r = Raise e ∧ exn_class e = "ConfigError").
Proof.
  cbv zeta. split; [reflexivity|].
  rewrite run_stops_at_inputnode. intros [e [H Hc]].
  injection H as <-. discriminate Hc.
Qed.

(** C3, as the claim states it, fails: with window 7,
    [denoise_before_combining] true and [combine_all_dwis] false the
    exception that stops the construction is the [TypeError] of line 92,
    the same as with [combine_all_dwis] true, and not a ConfigError. *)
Lemma C3_counterexample :
  let run combine_all_dwis :=
    merge.init_merge_and_denoise_wf ["sub-01_dwi.nii.gz"] 7 true combine_all_dwis 1 1 in
  outcome (run false) = Raise (TypeError "iterfield")
  ∧ run false = run true
  ∧ ¬ (exists e, outcome (run false) = Raise e ∧ exn_class e = "ConfigError").
Proof.
  cbv zeta. split; [reflexivity|]. split; [reflexivity|].
  intros [e [H Hc]]. vm_compute in H. injection H as <-. discriminate Hc.
Qed.

(** ** Edges of the fan-in *)
Section fan_in_edges.
Import distortion_group_merge.

Lemma filter_fan_in_edges_none (P : Edge -> Prop) `{!forall e, Decision (P e)}
    (groups : list (nat * string)) :
  (forall p, Forall (fun e => ¬ P e) (fan_in_edges p)) ->
  filter P (flat_map fan_in_edges groups) = [].
Proof.
  intros HP. induction groups as [|p groups IH]; [reflexivity|].
  cbn [flat_map]. rewrite filter_app, IH, app_nil_r.
  specialize (HP p). induction HP as [|e es He _ IHes]; [reflexivity|].
  rewrite filter_cons_False by exact He. exact IHes.
Qed.

Lemma filter_fan_in_edges_kind (sfx m : string) (groups : list (nat * string)) :
  (sfx, m) ∈ fan_in ->
  filter (fun e => e_dst e = m) (flat_map fan_in_edges groups)
  = map (fun p => "inputnode" @ (p.2 +:+ sfx) ~> m @ ("in" +:+ format_d (p.1 + 1))) groups.
Proof.
  intros Hin. induction groups as [|p groups IH]; [reflexivity|].
  cbn [flat_map map]. rewrite filter_app, IH. clear IH.
  unfold fan_in in Hin. each_member Hin; injection Hin as -> ->;
    unfold fan_in_edges;
    repeat first [ rewrite filter_cons_True by reflexivity
                 | rewrite filter_cons_False by (cbn; discriminate)
                 | rewrite filter_nil ];
    reflexivity.
Qed.

Lemma map_enumerate_from {A B : Type} (f : nat * A -> B) (k : nat) (l : list A) :
  map f (enumerate_from k l) = imap (fun i x => f (k + i, x)) l.
Proof.
  revert k. induction l as [|x l IH]; intros k; [reflexivity|].
  cbn [enumerate_from map]. rewrite imap_cons, IH, Nat.add_0_r. f_equal.
  apply imap_ext. intros i y _. cbn. do 2 f_equal. lia.
Qed.

Lemma fan_in_edges_no_qc (groups : list (nat * string)) :
  Forall no_qc_edge (flat_map fan_in_edges groups).
Proof.
  apply Forall_flat_map, Forall_forall. intros p _.
  unfold fan_in_edges. repeat constructor; cbn; try discriminate;
    intros H; apply append_ends in H; vm_compute in H; discriminate.
Qed.

Lemma startswith_concat_not_average (merging_strategy : string) :
  startswith merging_strategy "concat" = true -> selects_average merging_strategy = false.
Proof.
  unfold startswith, selects_average. destruct merging_strategy as [|c r]; [discriminate|].
  cbn [String.prefix]. destruct (ascii_dec "c" c) as [<-|]; [|discriminate].
  intros _. reflexivity.
Qed.

End fan_in_edges.

(** ** Merging distortion groups *)
Section distortion_group_merge_claims.
Import distortion_group_merge.

Variable init_mask_overlap_wf : string -> Workflow.
Variable init_dwi_derivatives_wf :
  string -> string -> string -> list string -> string -> bool -> string -> Z -> Workflow.
Variables (hmc_model reportlets_dir : string).
Variables (output_prefix source_file output_dir template : string).
Variables (shoreline_iters mem_gb omp_nthreads : Z) (name : string).

#[local] Abbreviation run merging_strategy inputs_list harmonize_b0_intensities b0_threshold :=
  (init_distortion_group_merge_wf init_mask_overlap_wf init_dwi_derivatives_wf
     merging_strategy inputs_list hmc_model reportlets_dir
     harmonize_b0_intensities b0_threshold
     output_prefix source_file output_dir template shoreline_iters
     mem_gb omp_nthreads name).

(** The three paths, by the strategy string. *)
Lemma run_cases (merging_strategy : string) (inputs_list : list string)
    (harmonize_b0_intensities : bool) (b0_threshold : Z) :
  (lower merging_strategy = "average"
   ∧ run merging_strategy inputs_list harmonize_b0_intensities b0_threshold
     = (average_graph inputs_list name, Raise (NameError "transform_dwis_t1")))
  ∨ (lower merging_strategy ≠ "average" ∧ startswith merging_strategy "concat" = true
     ∧ run merging_strategy inputs_list harmonize_b0_intensities b0_threshold
       = (concat_graph inputs_list name, Raise (NameError "transform_dwis_t1")))
  ∨ (lower merging_strategy ≠ "average" ∧ startswith merging_strategy "concat" = false
     ∧ run merging_strategy inputs_list harmonize_b0_intensities b0_threshold
       = (unmerged_graph inputs_list name, Raise (UnboundLocalError "distortion_merger"))).
Proof.
  destruct (selects_average merging_strategy) eqn:Ha.
  - left. split; [apply String.eqb_eq; exact Ha | apply run_average; exact Ha].
  - right. assert (lower merging_strategy ≠ "average") as Hne
      by (apply String.eqb_neq; exact Ha).
    destruct (startswith merging_strategy "concat") eqn:Hc.
    + left. split; [exact Hne|]. split; [reflexivity|].
      apply run_concat. unfold selects_concat. rewrite Ha, Hc. reflexivity.
    + right. split; [exact Hne|]. split; [reflexivity|].
      apply run_unrecognized; assumption.
Qed.

Lemma dispatch_average (merging_strategy : string) (inputs_list : list string)
    (harmonize_b0_intensities : bool) (b0_threshold : Z) :
  lower merging_strategy = "average" ->
  let g := graph_at_exit
             (run merging_strategy inputs_list harmonize_b0_intensities b0_threshold) in
  get_node g "distortion_merger" = Some (inl averager)
  ∧ n_interface averager = AveragePEPairs
  ∧ feeds g "distortion_merger" "original_bvec_files" = [("merge_original_bvec", "out")].
Proof.
  intros Ha. cbv zeta. rewrite run_average by (apply String.eqb_eq; exact Ha).
  unfold graph_at_exit, feeds. cbn [fst].
  rewrite get_node_average_graph, wf_edges_average_graph, !filter_app.
  rewrite filter_fan_in_edges_none; [repeat split|].
  intros p. unfold fan_in_edges. repeat constructor; cbn; intros [? _]; discriminate.
Qed.

Lemma dispatch_concat (merging_strategy : string) (inputs_list : list string)
    (harmonize_b0_intensities : bool) (b0_threshold : Z) :
  startswith merging_strategy "concat" = true ->
  let g := graph_at_exit
             (run merging_strategy inputs_list harmonize_b0_intensities b0_threshold) in
  get_node g "distortion_merger" = Some (inl concatenator)
  ∧ n_interface concatenator = MergeDWIs
  ∧ feeds g "distortion_merger" "original_bvec_files" = [].
Proof.
  intros Hc. cbv zeta. rewrite run_concat.
  2:{ unfold selects_concat.
      rewrite (startswith_concat_not_average _ Hc), Hc. reflexivity. }
  unfold graph_at_exit, feeds. cbn [fst].
  rewrite get_node_concat_graph, wf_edges_concat_graph, !filter_app.
  rewrite filter_fan_in_edges_none; [repeat split|].
  intros p. unfold fan_in_edges. repeat constructor; cbn; intros [? _]; discriminate.
Qed.

(** C1.  Whenever a merging strategy is selected (the lowercased string
    is ['average'], or the string starts with ['concat']), the function
    stops with a [NameError] for [transform_dwis_t1], a name bound
    nowhere in the module, and returns no workflow.  The names
    [raw_qc_file] and [confounds] are not fields of the input node, and
    the graph at that point has no edge to [series_qc] and none leaving a
    port of either name: the connections of lines 153-155 were never
    made. *)
Theorem C1_selected_strategy_raises_NameError
    (merging_strategy : string) (inputs_list : list string)
    (harmonize_b0_intensities : bool) (b0_threshold : Z) :
  lower merging_strategy = "average" ∨ startswith merging_strategy "concat" = true ->
  let r := run merging_strategy inputs_list harmonize_b0_intensities b0_threshold in
  outcome r = Raise (NameError "transform_dwis_t1")
  ∧ assoc "transform_dwis_t1" module_globals = @None object
  ∧ ("raw_qc_file" ∉ input_names inputs_list)
  ∧ ("confounds" ∉ input_names inputs_list)
  ∧ Forall no_qc_edge (wf_edges (graph_at_exit r)).
Proof.
  intros Hsel. cbv zeta.
  split; [|split; [reflexivity|]; split; [apply raw_qc_file_not_a_slot|];
            split; [apply confounds_not_a_slot|]].
  - destruct (run_cases merging_strategy inputs_list harmonize_b0_intensities b0_threshold)
      as [[_ ->]|[(_ & _ & ->)|(Hne & Hc & _)]]; [reflexivity..|].
    destruct Hsel as [Ha|Hc']; congruence.
  - destruct (run_cases merging_strategy inputs_list harmonize_b0_intensities b0_threshold)
      as [[_ ->]|[(_ & _ & ->)|(Hne & Hc & _)]].
    + unfold graph_at_exit. cbn [fst]. rewrite wf_edges_average_graph.
      rewrite !Forall_app. split; [apply fan_in_edges_no_qc|].
      split; repeat constructor; discriminate.
    + unfold graph_at_exit. cbn [fst]. rewrite wf_edges_concat_graph.
      rewrite !Forall_app. split; [apply fan_in_edges_no_qc|].
      repeat constructor; discriminate.
    + destruct Hsel as [Ha|Hc']; congruence.
Qed.

(** The function never returns: every path ends in an exception. *)
Lemma never_returns (merging_strategy : string) (inputs_list : list string)
    (harmonize_b0_intensities : bool) (b0_threshold : Z) :
  exists e, outcome (run merging_strategy inputs_list harmonize_b0_intensities b0_threshold)
            = Raise e.
Proof.
  destruct (run_cases merging_strategy inputs_list harmonize_b0_intensities b0_threshold)
    as [[_ ->]|[(_ & _ & ->)|(_ & _ & ->)]]; eexists; reflexivity.
Qed.

(** A string that starts with ['concat'] still does once lowercased. *)
Lemma startswith_concat_lower (merging_strategy : string) :
  startswith merging_strategy "concat" = true ->
  startswith (lower merging_strategy) "concat" = true.
Proof.
  unfold startswith. intros H.
  repeat (destruct merging_strategy as [|? merging_strategy]; [discriminate H|];
          cbn [String.prefix] in H;
          match type of H with
          | (if ascii_dec ?a ?b then _ else _) = true =>
              destruct (ascii_dec a b) as [<-|]; [|discriminate H]
          end).
  destruct merging_strategy; reflexivity.
Qed.

(** C2, as the code has it.  A strategy string that, in any casing, is
    neither ['average'] nor starts with ['concat'] makes the function
    stop at graph-construction time: no branch binds
    [distortion_merger], and reading it at line 117 raises
    [UnboundLocalError], which is not a ConfigError.  No workflow is
    returned, no merge node was created, and nothing is connected to
    one. *)
Theorem C2_unrecognized_strategy_fails
    (merging_strategy : string) (inputs_list : list string)
    (harmonize_b0_intensities : bool) (b0_threshold : Z) :
  lower merging_strategy ≠ "average" ->
  startswith (lower merging_strategy) "concat" = false ->
  let r := run merging_strategy inputs_list harmonize_b0_intensities b0_threshold in
  outcome r = Raise (UnboundLocalError "distortion_merger")
  ∧ ¬ (exists e, outcome r = Raise e ∧ exn_class e = "ConfigError")
  ∧ get_node (graph_at_exit r) "distortion_merger" = None
  ∧ edges_into (graph_at_exit r) "distortion_merger" = [].
Proof.
  intros Hne Hc. cbv zeta.
  assert (startswith merging_strategy "concat" = false) as Hc'.
  { destruct (startswith merging_strategy "concat") eqn:E; [|reflexivity].
    apply startswith_concat_lower in E. congruence. }
  rewrite run_unrecognized; [|apply String.eqb_neq; exact Hne|exact Hc'].
  split; [reflexivity|].
  split; [intros [e [H He]]; injection H as <-; discriminate He|].
  split; [apply get_node_unmerged_graph|].
  unfold edges_into, graph_at_exit. cbn [fst]. rewrite wf_edges_unmerged_graph.
  apply filter_fan_in_edges_none. intros p.
  unfold fan_in_edges. repeat constructor; cbn; discriminate.
Qed.

(** C4, as the code has it.  [harmonize_b0_intensities] and
    [b0_threshold] are not used: two calls that differ only in them give
    the same result, and the merge node, when one is created, carries no
    input and no keyword argument. *)
Theorem C4_harmonize_and_threshold_unused
    (merging_strategy : string) (inputs_list : list string)
    (harmonize_b0_intensities harmonize_b0_intensities' : bool)
    (b0_threshold b0_threshold' : Z) :
  run merging_strategy inputs_list harmonize_b0_intensities b0_threshold
  = run merging_strategy inputs_list harmonize_b0_intensities' b0_threshold'
  ∧ match get_node
            (graph_at_exit
               (run merging_strategy inputs_list harmonize_b0_intensities b0_threshold))
            "distortion_merger" with
    | Some (inl merger) => n_inputs merger = [] ∧ n_kwargs merger = []
    | Some (inr _) => False
    | None => lower merging_strategy ≠ "average"
              ∧ startswith merging_strategy "concat" = false
    end.
Proof.
  split; [reflexivity|].
  destruct (run_cases merging_strategy inputs_list harmonize_b0_intensities b0_threshold)
    as [[_ ->]|[(_ & _ & ->)|(Hne & Hc & ->)]]; unfold graph_at_exit; cbn [fst].
  - rewrite get_node_average_graph. split; reflexivity.
  - rewrite get_node_concat_graph. split; reflexivity.
  - rewrite get_node_unmerged_graph. split; assumption.
Qed.

(** C5, at an input where the code departs from the claim.  ['Concat']
    begins with ['concat'] once lowercased, but line 113 tests the
    string as given: no merge node is created and the function stops
    with [UnboundLocalError] for [distortion_merger]. *)
Theorem C5_capitalized_concat_not_dispatched
    (inputs_list : list string) (harmonize_b0_intensities : bool) (b0_threshold : Z) :
  let r := run "Concat" inputs_list harmonize_b0_intensities b0_threshold in
  startswith (lower "Concat") "concat" = true
  ∧ outcome r = Raise (UnboundLocalError "distortion_merger")
  ∧ get_node (graph_at_exit r) "distortion_merger" = None.
Proof.
  cbv zeta. rewrite run_unrecognized by reflexivity.
  split; [reflexivity|]. split; [reflexivity|]. apply get_node_unmerged_graph.
Qed.

(** C9.  For each of the seven kinds of field, the edges that arrive at
    the fan-in node of that kind are, in order, one per entry of
    [inputs_list]: entry number [i] (from 0) sends its field of that
    kind to port [in<i+1>].  This holds on every path through the
    function. *)
Theorem C9_fan_in_keeps_group_order
    (merging_strategy : string) (inputs_list : list string)
    (harmonize_b0_intensities : bool) (b0_threshold : Z) :
  let g := graph_at_exit
             (run merging_strategy inputs_list harmonize_b0_intensities b0_threshold) in
  Forall (fun kind : string * string =>
            edges_into g kind.2
            = imap (fun i group =>
                      "inputnode" @ (sanitize group +:+ kind.1)
                      ~> kind.2 @ ("in" +:+ format_d (i + 1)))
                   inputs_list)
         fan_in.
Proof.
  cbv zeta. apply Forall_forall. intros [sfx m] Hin. cbn [fst snd].
  assert (filter (fun e => e_dst e = m)
            (flat_map fan_in_edges (enumerate (sanitized_inputs inputs_list)))
          = imap (fun i group =>
                    "inputnode" @ (sanitize group +:+ sfx) ~> m @ ("in" +:+ format_d (i + 1)))
                 inputs_list) as Hloop.
  { rewrite (filter_fan_in_edges_kind sfx m) by exact Hin.
    unfold enumerate, sanitized_inputs. rewrite map_enumerate_from.
    change (map sanitize inputs_list) with (sanitize <$> inputs_list).
    rewrite imap_fmap. reflexivity. }
  assert (filter (fun e => e_dst e = m) merger_edges = []) as Hmerger.
  { unfold fan_in in Hin. each_member Hin; injection Hin as -> ->; reflexivity. }
  assert (filter (fun e => e_dst e = m)
            ["merge_original_bvec" @ "out" ~> "distortion_merger" @ "original_bvec_files"]
          = []) as Hbvec.
  { unfold fan_in in Hin. each_member Hin; injection Hin as -> ->; reflexivity. }
  unfold edges_into, graph_at_exit.
  destruct (run_cases merging_strategy inputs_list harmonize_b0_intensities b0_threshold)
    as [[_ ->]|[(_ & _ & ->)|(_ & _ & ->)]]; cbn [fst].
  - rewrite wf_edges_average_graph, !filter_app, Hloop, Hbvec, Hmerger, !app_nil_r.
    reflexivity.
  - rewrite wf_edges_concat_graph, !filter_app, Hloop, Hmerger, !app_nil_r. reflexivity.
  - rewrite wf_edges_unmerged_graph, Hloop. reflexivity.
Qed.

End distortion_group_merge_claims.

Lemma C1_witness :
  (lower "Average" = "average" ∨ startswith "Average" "concat" = true)
  ∧ outcome (distortion_group_merge.init_distortion_group_merge_wf
               distortion_group_merge.empty_mask_overlap_wf
               distortion_group_merge.empty_dwi_derivatives_wf
               "Average" ["dir-AP"; "dir-PA"] "3dSHORE" "/work/reportlets" true 100
               "sub-01" "sub-01_dwi.nii.gz" "/out" "MNI152NLin2009cAsym" 2 3 1
               "distortion_group_merge_wf")
    = Raise (NameError "transform_dwis_t1").
Proof.
  split; [left; reflexivity|].
  apply (C1_selected_strategy_raises_NameError
           distortion_group_merge.empty_mask_overlap_wf
           distortion_group_merge.empty_dwi_derivatives_wf
           "3dSHORE" "/work/reportlets" "sub-01" "sub-01_dwi.nii.gz" "/out"
           "MNI152NLin2009cAsym" 2 3 1 "distortion_group_merge_wf"
           "Average" ["dir-AP"; "dir-PA"] true 100).
  left. reflexivity.
Defined.

Lemma C2_witness :
  lower "nearest" ≠ "average"
  ∧ startswith (lower "nearest") "concat" = false
  ∧ outcome (distortion_group_merge.init_distortion_group_merge_wf
               distortion_group_merge.empty_mask_overlap_wf
               distortion_group_merge.empty_dwi_derivatives_wf
               "nearest" ["dir-AP"; "dir-PA"] "3dSHORE" "/work/reportlets" true 100
               "sub-01" "sub-01_dwi.nii.gz" "/out" "MNI152NLin2009cAsym" 2 3 1
               "distortion_group_merge_wf")
    = Raise (UnboundLocalError "distortion_merger").
Proof.
  split; [discriminate|]. split; [reflexivity|].
  apply (C2_unrecognized_strategy_fails
           distortion_group_merge.empty_mask_overlap_wf
           distortion_group_merge.empty_dwi_derivatives_wf
           "3dSHORE" "/work/reportlets" "sub-01" "sub-01_dwi.nii.gz" "/out"
           "MNI152NLin2009cAsym" 2 3 1 "distortion_group_merge_wf"
           "nearest" ["dir-AP"; "dir-PA"] true 100);
    [discriminate | reflexivity].
Defined.

(** C2, as the claim states it, fails: for the unrecognized strategy
    ['nearest'] the exception raised is [UnboundLocalError] for
    [distortion_merger], not a ConfigError. *)
Lemma C2_counterexample :
  let r := distortion_group_merge.init_distortion_group_merge_wf
             distortion_group_merge.empty_mask_overlap_wf
             distortion_group_merge.empty_dwi_derivatives_wf
             "nearest" ["dir-AP"; "dir-PA"] "3dSHORE" "/work/reportlets" true 100
             "sub-01" "sub-01_dwi.nii.gz" "/out" "MNI152NLin2009cAsym" 2 3 1
             "distortion_group_merge_wf" in
  lower "nearest" ≠ "average"
  ∧ startswith (lower "nearest") "concat" = false
  ∧ outcome r = Raise (UnboundLocalError "distortion_merger")
  ∧ ¬ (exists e, outcome r = Raise e ∧ exn_class e = "ConfigError").
Proof.
  cbv zeta. split; [discriminate|]. split; [reflexivity|]. split; [reflexivity|].
  intros [e [H Hc]]. vm_compute in H. injection H as <-. discriminate Hc.
Qed.

(** C4, as the claim states it, fails: two calls that differ only in
    [harmonize_b0_intensities] and [b0_threshold] build the same merge
    node, and the same graph. *)
Lemma C4_counterexample :
  let run harmonize_b0_intensities b0_threshold :=
    distortion_group_merge.init_distortion_group_merge_wf
      distortion_group_merge.empty_mask_overlap_wf
      distortion_group_merge.empty_dwi_derivatives_wf
      "concat" ["dir-AP"; "dir-PA"] "3dSHORE" "/work/reportlets"
      harmonize_b0_intensities b0_threshold
      "sub-01" "sub-01_dwi.nii.gz" "/out" "MNI152NLin2009cAsym" 2 3 1
      "distortion_group_merge_wf" in
  get_node (graph_at_exit (run true 100%Z)) "distortion_merger"
  = Some (inl distortion_group_merge.concatenator)
  ∧ get_node (graph_at_exit (run false 0%Z)) "distortion_merger"
    = Some (inl distortion_group_merge.concatenator)
  ∧ run true 100%Z = run false 0%Z.
Proof. cbv zeta. repeat split; reflexivity. Qed.

(** ** Slots of the input node *)

(** C8.  The fields of the input node are exactly the names [g ++ s]
    for a sanitized group identifier [g] and one of the seven suffixes
    [s]: seven per entry of [inputs_list], every group with all seven,
    no other name, and in particular no [g_confounds]. *)
Theorem C8_seven_slots_per_group (inputs_list : list string) :
  let slots := distortion_group_merge.input_names inputs_list in
  let seven := ["_image"; "_bval"; "_bvec"; "_original_bvec"; "_original_image";
                "_raw_concatenated_image"; "_b0_ref"] in
  n_interface (distortion_group_merge.inputnode inputs_list) = IdentityInterface slots
  ∧ length slots = 7 * length inputs_list
  ∧ (forall x, x ∈ slots
               <-> exists g s, g ∈ distortion_group_merge.sanitized_inputs inputs_list
                               ∧ s ∈ seven ∧ x = g +:+ s)
  ∧ Forall (fun g => Forall (fun s => g +:+ s ∈ slots) seven)
           (distortion_group_merge.sanitized_inputs inputs_list)
  ∧ (forall g, g +:+ "_confounds" ∉ slots).
Proof.
  cbv zeta.
  assert (forall s, s ∈ ["_image"; "_bval"; "_bvec"; "_original_bvec"; "_original_image";
                          "_raw_concatenated_image"; "_b0_ref"]
                    <-> s ∈ distortion_group_merge.suffixes) as Hperm.
  { intros s. unfold distortion_group_merge.suffixes. rewrite !elem_of_cons. tauto. }
  split; [reflexivity|]. split; [apply length_input_names|].
  split; [|split].
  - intros x. rewrite elem_of_input_names. split.
    + intros [g [s (Hg & Hs & ->)]]. exists g, s. rewrite Hperm. auto.
    + intros [g [s (Hg & Hs & ->)]]. exists g, s. rewrite <- Hperm. auto.
  - apply Forall_forall. intros g Hg. apply Forall_forall. intros s Hs.
    apply elem_of_input_names. exists g, s. rewrite <- Hperm. auto.
  - intros g. apply group_confounds_not_a_slot.
Qed.

(** ** Sanitized identifiers *)

Lemma sanitize_inj_no_underscore (a b : string) :
  contains "_" a = false -> contains "_" b = false ->
  distortion_group_merge.sanitize a = distortion_group_merge.sanitize b -> a = b.
Proof.
  unfold distortion_group_merge.sanitize. revert b.
  induction a as [|c a IH]; intros [|d b] Ha Hb H; cbn in *;
    try discriminate; [reflexivity|].
  apply orb_false_elim in Ha as [Hc Ha]. apply orb_false_elim in Hb as [Hd Hb].
  injection H as Hcd Hab. f_equal; [|apply IH; assumption].
  destruct (Ascii.eqb_spec c "-") as [->|Hc'], (Ascii.eqb_spec d "-") as [->|Hd'];
    try reflexivity; try assumption.
  - subst d. discriminate Hd.
  - subst c. discriminate Hc.
Qed.

Lemma sanitize_char (c d : ascii) :
  (if Ascii.eqb c "-" then "_"%char else c) = (if Ascii.eqb d "-" then "_"%char else d)
  <-> (Ascii.eqb c d || (dash_like c && dash_like d)) = true.
Proof.
  unfold dash_like.
  destruct (Ascii.eqb_spec c "-"), (Ascii.eqb_spec d "-"),
           (Ascii.eqb_spec c "_"), (Ascii.eqb_spec d "_"), (Ascii.eqb_spec c d);
    cbn [orb andb]; split; intros H;
    first [reflexivity | discriminate | congruence].
Qed.

Lemma sanitize_eq_same_up_to_dash (a b : string) :
  distortion_group_merge.sanitize a = distortion_group_merge.sanitize b ->
  same_up_to_dash a b = true.
Proof.
  unfold distortion_group_merge.sanitize. revert b.
  induction a as [|c a IH]; intros [|d b] H; cbn [Py.replace same_up_to_dash] in *;
    try discriminate H; [reflexivity|].
  injection H as H1 H2. apply andb_true_iff. split.
  - apply sanitize_char. exact H1.
  - apply IH. exact H2.
Qed.

(** C10, as the code has it.  Sanitization replaces every ['-'] by
    ['_'], so it is injective up to that exchange and no further: two
    identifiers that do not agree up to ['-'] against ['_'] (they differ
    in length, or at some position where not both have one of the two
    characters) have distinct sanitized forms, and their slots of each
    kind are distinct. *)
Theorem C10_sanitize_injective_up_to_dash (a b : string) :
  same_up_to_dash a b = false ->
  distortion_group_merge.sanitize a ≠ distortion_group_merge.sanitize b
  ∧ Forall (fun s => distortion_group_merge.sanitize a +:+ s
                     ≠ distortion_group_merge.sanitize b +:+ s)
           distortion_group_merge.suffixes.
Proof.
  intros Hdiff.
  assert (distortion_group_merge.sanitize a ≠ distortion_group_merge.sanitize b) as Hs.
  { intros H. apply sanitize_eq_same_up_to_dash in H. congruence. }
  split; [exact Hs|]. apply Forall_forall. intros s _ H.
  apply Hs. exact (append_inj_suffix _ _ _ H).
Qed.

Lemma C10_witness :
  same_up_to_dash "acq-HCP_dir-AP" "acq-HCP_dir-PA" = false
  ∧ distortion_group_merge.sanitize "acq-HCP_dir-AP"
    ≠ distortion_group_merge.sanitize "acq-HCP_dir-PA".
Proof.
  split; [reflexivity|].
  apply (C10_sanitize_injective_up_to_dash "acq-HCP_dir-AP" "acq-HCP_dir-PA").
  reflexivity.
Defined.

(** C10, as the claim states it, fails: two distinct identifiers that
    differ only in ['-'] against ['_'] have the same sanitized form, and
    the slot names built from them repeat. *)
Lemma C10_counterexample :
  "dir-AP" ∈ ["dir-AP"; "dir_AP"] ∧ "dir_AP" ∈ ["dir-AP"; "dir_AP"]
  ∧ "dir-AP" ≠ "dir_AP"
  ∧ distortion_group_merge.sanitize "dir-AP" = distortion_group_merge.sanitize "dir_AP"
  ∧ ¬ NoDup (distortion_group_merge.input_names ["dir-AP"; "dir_AP"]).
Proof.
  split; [apply list_elem_of_here|].
  split; [apply list_elem_of_further, list_elem_of_here|].
  split; [discriminate|]. split; [reflexivity|].
  intros H. vm_compute in H. apply NoDup_cons in H as [H _].
  apply H. apply list_elem_of_here.
Qed.

(** * Further properties of the two functions *)

(** ** Graphs built by [connect] *)
Section connect_invariants.

Lemma connect_graph_app (cs1 cs2 : list Connection) (w : Workflow) :
  connect_graph (cs1 ++ cs2) w = connect_graph cs2 (connect_graph cs1 w).
Proof. unfold connect_graph. apply fold_left_app. Qed.

Lemma has_vertex_elem_of (w : Workflow) (x : string) :
  has_vertex w x = true <-> x ∈ vertex_names w.
Proof.
  unfold has_vertex, vertex_names. rewrite existsb_exists, list_elem_of_In, in_map_iff.
  split; intros [v [H1 H2]]; exists v.
  - apply String.eqb_eq in H2. auto.
  - split; [exact H2 | apply String.eqb_eq; exact H1].
Qed.

Lemma vertex_names_add_vertex (v : Vertex) (w : Workflow) :
  vertex_names (add_vertex v w)
  = if has_vertex w (vertex_name v) then vertex_names w
    else vertex_names w ++ [vertex_name v].
Proof.
  unfold add_vertex. destruct (has_vertex w (vertex_name v)); [reflexivity|].
  unfold vertex_names. cbn [wf_vertices]. apply map_app.
Qed.

Lemma elem_of_vertex_names_add_vertex (v : Vertex) (w : Workflow) (x : string) :
  x ∈ vertex_names (add_vertex v w) <-> x ∈ vertex_names w ∨ x = vertex_name v.
Proof.
  rewrite vertex_names_add_vertex. destruct (has_vertex w (vertex_name v)) eqn:E.
  - apply has_vertex_elem_of in E. split; [auto|]. intros [H| ->]; assumption.
  - rewrite elem_of_app, list_elem_of_singleton. reflexivity.
Qed.

Lemma NoDup_vertex_names_add_vertex (v : Vertex) (w : Workflow) :
  NoDup (vertex_names w) -> NoDup (vertex_names (add_vertex v w)).
Proof.
  intros H. rewrite vertex_names_add_vertex.
  destruct (has_vertex w (vertex_name v)) eqn:E; [exact H|].
  apply NoDup_app. split; [exact H|]. split; [|apply NoDup_singleton].
  intros x Hx ->%list_elem_of_singleton.
  apply has_vertex_elem_of in Hx. congruence.
Qed.

Lemma vertex_names_connect1 (w : Workflow) (c : Connection) (x : string) :
  x ∈ vertex_names (connect1 w c)
  <-> x ∈ vertex_names w ∨ x = vertex_name c.1.1 ∨ x = vertex_name c.1.2.
Proof.
  destruct c as [[src dst] ports]. cbn [connect1 fst snd].
  change (vertex_names (add_edges ?es ?g)) with (vertex_names g).
  rewrite !elem_of_vertex_names_add_vertex. tauto.
Qed.

Lemma NoDup_vertex_names_connect_graph (cs : list Connection) (w : Workflow) :
  NoDup (vertex_names w) -> NoDup (vertex_names (connect_graph cs w)).
Proof.
  unfold connect_graph. revert w.
  induction cs as [|[[src dst] ports] cs IH]; intros w H; cbn [fold_left]; [exact H|].
  apply IH. cbn [connect1].
  change (vertex_names (add_edges ?es ?g)) with (vertex_names g).
  do 2 apply NoDup_vertex_names_add_vertex. exact H.
Qed.

Lemma closed_connect1 (w : Workflow) (c : Connection) :
  closed w -> closed (connect1 w c).
Proof.
  unfold closed. intros H. rewrite wf_edges_connect1. apply Forall_app. split.
  - eapply Forall_impl; [exact H|]. intros e [H1 H2]. cbv beta.
    rewrite !vertex_names_connect1. auto.
  - destruct c as [[src dst] ports]. unfold connection_edges.
    apply Forall_forall. intros e [p [-> _]]%list_elem_of_fmap. cbn [e_src e_dst].
    rewrite !vertex_names_connect1. cbn [fst snd]. auto.
Qed.

Lemma closed_connect_graph (cs : list Connection) (w : Workflow) :
  closed w -> closed (connect_graph cs w).
Proof.
  unfold connect_graph. revert w.
  induction cs as [|c cs IH]; intros w H; cbn [fold_left]; [exact H|].
  apply IH, closed_connect1, H.
Qed.

(** Only the endpoints of the connections enter the graph. *)
Lemma vertex_names_connect_graph (P : string -> Prop) (cs : list Connection) (w : Workflow) :
  Forall P (vertex_names w) ->
  Forall (fun c : Connection => P (vertex_name c.1.1) ∧ P (vertex_name c.1.2)) cs ->
  Forall P (vertex_names (connect_graph cs w)).
Proof.
  unfold connect_graph. intros Hw Hcs. revert w Hw.
  induction Hcs as [|c cs [H1 H2] _ IH]; intros w Hw; cbn [fold_left]; [exact Hw|].
  apply IH. apply Forall_forall. intros x Hx%vertex_names_connect1.
  rewrite Forall_forall in Hw. destruct Hx as [Hx|[->| ->]]; auto.
Qed.

Lemma get_node_connect_graph_Some (cs : list Connection) (w : Workflow) (x : string)
    (v : Vertex) :
  get_node w x = Some v -> get_node (connect_graph cs w) x = Some v.
Proof.
  unfold connect_graph. revert w.
  induction cs as [|[[src dst] ports] cs IH]; intros w H; cbn [fold_left]; [exact H|].
  apply IH. cbn [connect1]. rewrite get_node_add_edges, !get_node_add_vertex, H.
  reflexivity.
Qed.

(** A ranking rules out cycles. *)
Lemma ranked_reachable (rank : string -> nat) (w : Workflow) (x y : string) :
  ranked rank w -> reachable w x y -> rank x < rank y.
Proof.
  intros Hr Hxy. induction Hxy as [e He|x y z _ IH1 _ IH2].
  - unfold ranked in Hr. rewrite Forall_forall in Hr. apply Hr, He.
  - lia.
Qed.

Lemma ranked_acyclic (rank : string -> nat) (w : Workflow) : ranked rank w -> acyclic w.
Proof.
  intros Hr x Hx. apply (ranked_reachable rank w x x Hr) in Hx. lia.
Qed.

End connect_invariants.

(** ** Where the distortion-group merge stops *)
Section distortion_exit.
Import distortion_group_merge.

Variable init_mask_overlap_wf : string -> Workflow.
Variable init_dwi_derivatives_wf :
  string -> string -> string -> list string -> string -> bool -> string -> Z -> Workflow.
Variables (hmc_model reportlets_dir : string).
Variables (output_prefix source_file output_dir template : string).
Variables (shoreline_iters mem_gb omp_nthreads : Z).

Lemma run_distortion_exit (merging_strategy : string) (inputs_list : list string)
    (harmonize_b0_intensities : bool) (b0_threshold : Z) (name : string) :
  init_distortion_group_merge_wf init_mask_overlap_wf init_dwi_derivatives_wf
    merging_strategy inputs_list hmc_model reportlets_dir
    harmonize_b0_intensities b0_threshold
    output_prefix source_file output_dir template shoreline_iters
    mem_gb omp_nthreads name
  = distortion_exit merging_strategy inputs_list name.
Proof.
  unfold distortion_exit.
  destruct (selects_average merging_strategy) eqn:Ha; [apply run_average; exact Ha|].
  destruct (startswith merging_strategy "concat") eqn:Hc.
  - apply run_concat. unfold selects_concat. rewrite Ha, Hc. reflexivity.
  - apply run_unrecognized; assumption.
Qed.

End distortion_exit.

Section exit_graphs.
Import distortion_group_merge.

Variables (inputs_list : list string) (name : string).

Lemma fan_in_graph_connect (groups : list (nat * string)) (w : Workflow) :
  fan_in_graph inputs_list groups w
  = connect_graph (all_fan_in_connections inputs_list groups) w.
Proof.
  unfold fan_in_graph, all_fan_in_connections. revert w.
  induction groups as [|p groups IH]; intros w; [reflexivity|].
  cbn [fold_left flat_map]. rewrite connect_graph_app. apply IH.
Qed.

(** Each of the three graphs is built by [connect] alone, from the empty
    workflow. *)
Lemma exit_graph_connect (merging_strategy : string) :
  exists cs,
    graph_at_exit (distortion_exit merging_strategy inputs_list name)
    = connect_graph cs (new_workflow name)
    ∧ Forall (fun c : Connection =>
                vertex_name c.1.1 ∈ fan_in_and_merger_names
                ∧ vertex_name c.1.2 ∈ fan_in_and_merger_names) cs.
Proof.
  assert (Forall (fun c : Connection =>
                    vertex_name c.1.1 ∈ fan_in_and_merger_names
                    ∧ vertex_name c.1.2 ∈ fan_in_and_merger_names)
            (all_fan_in_connections inputs_list
               (enumerate (sanitized_inputs inputs_list)))) as Hloop.
  { unfold all_fan_in_connections. apply Forall_flat_map, Forall_forall.
    intros [i g] _. unfold fan_in_connections.
    each_element; try split; member_by_computation. }
  assert (forall merger, n_name merger = "distortion_merger" ->
            Forall (fun c : Connection =>
                      vertex_name c.1.1 ∈ fan_in_and_merger_names
                      ∧ vertex_name c.1.2 ∈ fan_in_and_merger_names)
              (merger_connections inputs_list merger)) as Hmerger.
  { intros merger Hn. unfold merger_connections.
    each_element; try split; cbn [vertex_name fst snd]; rewrite ?Hn;
      member_by_computation. }
  unfold distortion_exit, graph_at_exit.
  destruct (selects_average merging_strategy); [|destruct (startswith _ _)]; cbn [fst].
  - eexists. unfold average_graph, unmerged_graph.
    rewrite fan_in_graph_connect, <- !connect_graph_app. split; [reflexivity|].
    rewrite !Forall_app. split; [exact Hloop|]. split; [|apply Hmerger; reflexivity].
    each_element; try split; member_by_computation.
  - eexists. unfold concat_graph, unmerged_graph.
    rewrite fan_in_graph_connect, <- !connect_graph_app. split; [reflexivity|].
    rewrite !Forall_app. split; [exact Hloop|apply Hmerger; reflexivity].
  - eexists. unfold unmerged_graph. rewrite fan_in_graph_connect.
    split; [reflexivity | exact Hloop].
Qed.

End exit_graphs.

Section exit_edges.
Import distortion_group_merge.

Variables (inputs_list : list string) (name : string).

Lemma wf_name_connect_graph (cs : list Connection) (w : Workflow) :
  wf_name (connect_graph cs w) = wf_name w.
Proof.
  unfold connect_graph. revert w.
  induction cs as [|[[src dst] ports] cs IH]; intros w; cbn [fold_left]; [reflexivity|].
  rewrite IH. cbn [connect1 add_edges wf_name]. unfold add_vertex.
  repeat match goal with |- context [if ?b then _ else _] => destruct b end; reflexivity.
Qed.

Lemma wf_edges_exit (merging_strategy : string) :
  wf_edges (graph_at_exit (distortion_exit merging_strategy inputs_list name))
  = flat_map fan_in_edges (enumerate (sanitized_inputs inputs_list))
    ++ exit_merger_edges merging_strategy.
Proof.
  unfold distortion_exit, exit_merger_edges, graph_at_exit.
  destruct (selects_average merging_strategy); [|destruct (startswith _ _)]; cbn [fst].
  - apply wf_edges_average_graph.
  - apply wf_edges_concat_graph.
  - rewrite app_nil_r. apply wf_edges_unmerged_graph.
Qed.

(** Every edge at the merge node leaves the [out] port of a fan-in node. *)
Lemma exit_merger_edges_shape (merging_strategy : string) :
  Forall (fun e => e_dst e = "distortion_merger" ∧ e_srcfield e = "out"
                   ∧ distortion_stage (e_src e) = 1)
         (exit_merger_edges merging_strategy).
Proof.
  unfold exit_merger_edges, merger_edges.
  destruct (selects_average merging_strategy); [|destruct (startswith _ _)];
    each_element; repeat split.
Qed.

Lemma enumerate_from_ge {A : Type} (k i : nat) (x : A) (l : list A) :
  (i, x) ∈ enumerate_from k l -> k <= i.
Proof.
  revert k. induction l as [|a l IH]; intros k H; cbn [enumerate_from] in H.
  - apply elem_of_nil in H. destruct H.
  - apply elem_of_cons in H as [H|H]; [injection H as -> _; lia|].
    apply IH in H. lia.
Qed.

Lemma snd_enumerate_from {A : Type} (k : nat) (l : list A) :
  map snd (enumerate_from k l) = l.
Proof.
  revert k. induction l as [|a l IH]; intros k; [reflexivity|].
  cbn [enumerate_from map snd]. f_equal. apply IH.
Qed.

Lemma length_enumerate_from {A : Type} (k : nat) (l : list A) :
  length (enumerate_from k l) = length l.
Proof. rewrite <- (snd_enumerate_from k l) at 2. symmetry. apply length_map. Qed.

(** The input ports that one pass of the loop connects. *)
Lemma input_ports_fan_in_edges (p : nat * string) :
  map (fun e => (e_dst e, e_dstfield e)) (fan_in_edges p)
  = map (fun m => (m, "in" +:+ format_d (p.1 + 1))) (map snd fan_in).
Proof. reflexivity. Qed.

Lemma port_name_inj (i j : nat) :
  "in" +:+ format_d (i + 1) = "in" +:+ format_d (j + 1) -> i = j.
Proof.
  intros H. apply (inj (String.app "in")) in H. unfold format_d in H.
  apply (inj pretty) in H. lia.
Qed.

Lemma input_ports_fan_in_from (k : nat) (l : list string) (x : string * string) :
  x ∈ map (fun e => (e_dst e, e_dstfield e)) (flat_map fan_in_edges (enumerate_from k l)) ->
  exists i, k <= i ∧ x.2 = "in" +:+ format_d (i + 1) ∧ x.1 ∈ map snd fan_in.
Proof.
  revert k. induction l as [|a l IH]; intros k H; cbn [enumerate_from flat_map map] in H.
  - apply elem_of_nil in H. destruct H.
  - rewrite map_app, elem_of_app in H. destruct H as [H|H].
    + rewrite input_ports_fan_in_edges in H.
      apply list_elem_of_fmap in H as [m [-> Hm]]. exists k. cbn [fst snd]. auto.
    + apply IH in H as [i (Hi & H1 & H2)]. exists i. split; [lia|auto].
Qed.

Lemma NoDup_input_ports_fan_in (k : nat) (l : list string) :
  NoDup (map (fun e => (e_dst e, e_dstfield e))
             (flat_map fan_in_edges (enumerate_from k l))).
Proof.
  revert k. induction l as [|a l IH]; intros k; cbn [enumerate_from flat_map map].
  - apply NoDup_nil. exact I.
  - rewrite map_app. apply NoDup_app. split; [|split; [|apply IH]].
    + rewrite input_ports_fan_in_edges. apply NoDup_fmap_2_strong.
      * intros x y _ _ H. injection H as ->. reflexivity.
      * compute_done.
    + intros x Hx Hrest. rewrite input_ports_fan_in_edges in Hx.
      apply list_elem_of_fmap in Hx as [m [-> _]].
      apply input_ports_fan_in_from in Hrest as [i (Hi & Hp & _)].
      cbn [fst snd] in Hp. apply port_name_inj in Hp. lia.
Qed.

Lemma NoDup_input_ports_exit (merging_strategy : string) :
  NoDup (input_ports (graph_at_exit (distortion_exit merging_strategy inputs_list name))).
Proof.
  unfold input_ports. rewrite wf_edges_exit, map_app. apply NoDup_app.
  split; [apply NoDup_input_ports_fan_in|]. split.
  - intros x Hx Hm. apply input_ports_fan_in_from in Hx as [i (_ & _ & Hx)].
    apply list_elem_of_fmap in Hm as [e [-> He]].
    pose proof (exit_merger_edges_shape merging_strategy) as Hs.
    rewrite Forall_forall in Hs. destruct (Hs e He) as [Hd _]. cbn [fst] in Hx.
    rewrite Hd in Hx. revert Hx. apply (bool_decide_eq_false_1 _). vm_compute. reflexivity.
  - unfold exit_merger_edges, merger_edges.
    destruct (selects_average merging_strategy); [|destruct (startswith _ _)];
      cbn [map e_dst e_dstfield];
      repeat (apply NoDup_cons_2;
              [rewrite ?elem_of_cons, ?elem_of_nil; intros H; destruct_or?;
               solve [discriminate H | destruct H]|]);
      apply NoDup_nil_2.
Qed.

Lemma ranked_exit (merging_strategy : string) :
  ranked distortion_stage
         (graph_at_exit (distortion_exit merging_strategy inputs_list name)).
Proof.
  unfold ranked. rewrite wf_edges_exit. apply Forall_app. split.
  - apply Forall_flat_map, Forall_forall. intros p _. unfold fan_in_edges.
    each_element; cbn; lia.
  - eapply Forall_impl; [apply exit_merger_edges_shape|].
    intros e (Hd & _ & Hs). rewrite Hs, Hd. cbn. lia.
Qed.

Lemma filter_fan_in_edges_all (groups : list (nat * string)) :
  filter (fun e => e_src e = "inputnode") (flat_map fan_in_edges groups)
  = flat_map fan_in_edges groups.
Proof.
  induction groups as [|p groups IH]; [reflexivity|].
  cbn [flat_map]. rewrite filter_app, IH. f_equal; reflexivity.
Qed.

Lemma fields_read_inputnode_exit (merging_strategy : string) :
  fields_read (graph_at_exit (distortion_exit merging_strategy inputs_list name)) "inputnode"
  = flat_map (fun p : nat * string => map (fun s => p.2 +:+ s) (map fst fan_in))
             (enumerate (sanitized_inputs inputs_list)).
Proof.
  unfold fields_read. rewrite wf_edges_exit, filter_app, filter_fan_in_edges_all.
  assert (filter (fun e => e_src e = "inputnode") (exit_merger_edges merging_strategy) = [])
    as ->.
  { unfold exit_merger_edges, merger_edges.
    destruct (selects_average merging_strategy); [|destruct (startswith _ _)]; reflexivity. }
  rewrite app_nil_r. generalize (enumerate (sanitized_inputs inputs_list)).
  intros groups. induction groups as [|p groups IH]; [reflexivity|].
  cbn [flat_map]. rewrite map_app, IH. reflexivity.
Qed.

End exit_edges.

(** ** The distortion-group merge, whatever the path *)
Section distortion_group_merge_extras.
Import distortion_group_merge.

Variable init_mask_overlap_wf : string -> Workflow.
Variable init_dwi_derivatives_wf :
  string -> string -> string -> list string -> string -> bool -> string -> Z -> Workflow.
Variables (hmc_model reportlets_dir : string).
Variables (harmonize_b0_intensities : bool) (b0_threshold : Z).
Variables (output_prefix source_file output_dir template : string).
Variables (shoreline_iters mem_gb omp_nthreads : Z).

#[local] Abbreviation run merging_strategy inputs_list name :=
  (init_distortion_group_merge_wf init_mask_overlap_wf init_dwi_derivatives_wf
     merging_strategy inputs_list hmc_model reportlets_dir
     harmonize_b0_intensities b0_threshold
     output_prefix source_file output_dir template shoreline_iters
     mem_gb omp_nthreads name).

(** X1.  The result depends on [merging_strategy], [inputs_list] and
    [name] only: the two imported factories, [hmc_model],
    [reportlets_dir], [output_prefix], [source_file], [output_dir],
    [template], [shoreline_iters], [mem_gb] and [omp_nthreads] can be
    changed at will without changing the graph built or the exception
    raised; the function always raises. *)
Theorem X1_pass_through_arguments_without_effect
    (init_mask_overlap_wf' : string -> Workflow)
    (init_dwi_derivatives_wf' :
       string -> string -> string -> list string -> string -> bool -> string -> Z -> Workflow)
    (hmc_model' reportlets_dir' : string)
    (output_prefix' source_file' output_dir' template' : string)
    (shoreline_iters' mem_gb' omp_nthreads' : Z)
    (merging_strategy : string) (inputs_list : list string) (name : string) :
  run merging_strategy inputs_list name
  = init_distortion_group_merge_wf init_mask_overlap_wf' init_dwi_derivatives_wf'
      merging_strategy inputs_list hmc_model' reportlets_dir'
      harmonize_b0_intensities b0_threshold
      output_prefix' source_file' output_dir' template' shoreline_iters'
      mem_gb' omp_nthreads' name
  ∧ exists e, outcome (run merging_strategy inputs_list name) = Raise e.
Proof.
  rewrite !run_distortion_exit. split; [reflexivity|].
  unfold distortion_exit.
  destruct (selects_average merging_strategy); [|destruct (startswith _ _)];
    eexists; reflexivity.
Qed.

(** X2.  The graph at the point where the function stops carries the
    requested name, has only the input node, the seven fan-in nodes and
    the merge node as vertices (so neither the output node nor any QC,
    gradient or data-sink node ever enters it), has no two vertices of
    the same name, and every one of its edges joins two of its
    vertices. *)
Theorem X2_exit_graph_well_formed
    (merging_strategy : string) (inputs_list : list string) (name : string) :
  let g := graph_at_exit (run merging_strategy inputs_list name) in
  wf_name g = name
  ∧ Forall (fun x => x ∈ fan_in_and_merger_names) (vertex_names g)
  ∧ NoDup (vertex_names g)
  ∧ closed g.
Proof.
  cbv zeta. rewrite run_distortion_exit.
  destruct (exit_graph_connect inputs_list name merging_strategy) as [cs [-> Hcs]].
  split; [apply wf_name_connect_graph|].
  split; [apply vertex_names_connect_graph; [apply Forall_nil; exact I | exact Hcs]|].
  split; [apply NoDup_vertex_names_connect_graph, NoDup_nil; exact I|].
  apply closed_connect_graph. apply Forall_nil. exact I.
Qed.

(** X4.  No input port is connected twice: the pairs (vertex, input
    field) at which the edges arrive are pairwise distinct, on every
    path and for every list of groups. *)
Theorem X4_no_input_port_connected_twice
    (merging_strategy : string) (inputs_list : list string) (name : string) :
  NoDup (input_ports (graph_at_exit (run merging_strategy inputs_list name))).
Proof. rewrite run_distortion_exit. apply NoDup_input_ports_exit. Qed.

(** X5.  The fields read from the input node are exactly the fields it
    was created with: an edge leaves [inputnode] at field [x] if and
    only if [x] is in [input_names], and there are as many such edges as
    fields. *)
Theorem X5_inputnode_fields_all_read
    (merging_strategy : string) (inputs_list : list string) (name : string) :
  let g := graph_at_exit (run merging_strategy inputs_list name) in
  (forall x, x ∈ fields_read g "inputnode" <-> x ∈ input_names inputs_list)
  ∧ length (fields_read g "inputnode") = length (input_names inputs_list).
Proof.
  cbv zeta. rewrite run_distortion_exit, fields_read_inputnode_exit. split.
  - intros x. rewrite elem_of_input_names, list_elem_of_In, in_flat_map. split.
    + intros [[i g] [Hp Hx]]. apply in_map_iff in Hx as [s [<- Hs]].
      exists g, s. split; [|split; [|reflexivity]].
      * rewrite <- (snd_enumerate_from 0 (sanitized_inputs inputs_list)).
        apply list_elem_of_In, in_map_iff. exists (i, g). auto.
      * apply list_elem_of_In in Hs. revert Hs. unfold fan_in, suffixes. cbn [map fst].
        rewrite !elem_of_cons. tauto.
    + intros [g [s (Hg & Hs & ->)]].
      rewrite <- (snd_enumerate_from 0 (sanitized_inputs inputs_list)) in Hg.
      apply list_elem_of_In, in_map_iff in Hg as [[i g'] [<- Hp]].
      exists (i, g'). split; [exact Hp|]. apply in_map_iff. exists s. split; [reflexivity|].
      apply list_elem_of_In. revert Hs. unfold fan_in, suffixes. cbn [map fst].
      rewrite !elem_of_cons. tauto.
  - rewrite length_input_names. unfold enumerate.
    rewrite <- (length_map sanitize inputs_list).
    change (map sanitize inputs_list) with (sanitized_inputs inputs_list).
    rewrite <- (length_enumerate_from 0 (sanitized_inputs inputs_list)).
    generalize (enumerate_from 0 (sanitized_inputs inputs_list)). intros groups.
    induction groups as [|p groups IH]; [reflexivity|].
    cbn [flat_map]. rewrite length_app, IH. cbn [length map fan_in]. lia.
Qed.

(** X6.  The graph at the point where the function stops has no cycle:
    every edge goes from the input node to a fan-in node or from a
    fan-in node to the merge node. *)
Theorem X6_exit_graph_acyclic
    (merging_strategy : string) (inputs_list : list string) (name : string) :
  let g := graph_at_exit (run merging_strategy inputs_list name) in
  ranked distortion_stage g ∧ acyclic g.
Proof.
  cbv zeta. rewrite run_distortion_exit.
  pose proof (ranked_exit inputs_list name merging_strategy) as H.
  split; [exact H | exact (ranked_acyclic _ _ H)].
Qed.

End distortion_group_merge_extras.

Section fan_in_nodes.
Import distortion_group_merge.

Variables (inputs_list : list string) (name : string).

Lemma port_names_enumerate_from (k : nat) (l : list string) :
  map (fun p : nat * string => "in" +:+ format_d (p.1 + 1)) (enumerate_from k l)
  = map (fun i => "in" +:+ format_d i) (seq (k + 1) (length l)).
Proof.
  revert k. induction l as [|a l IH]; intros k; [reflexivity|].
  cbn [enumerate_from map length seq fst]. f_equal. apply (IH (S k)).
Qed.

Lemma edges_into_fan_in_node_exit (merging_strategy sfx m : string) :
  (sfx, m) ∈ fan_in ->
  edges_into (graph_at_exit (distortion_exit merging_strategy inputs_list name)) m
  = map (fun p : nat * string =>
           "inputnode" @ (p.2 +:+ sfx) ~> m @ ("in" +:+ format_d (p.1 + 1)))
        (enumerate (sanitized_inputs inputs_list)).
Proof.
  intros Hin. unfold edges_into.
  rewrite wf_edges_exit, filter_app, (filter_fan_in_edges_kind sfx m) by exact Hin.
  assert (filter (fun e => e_dst e = m) (exit_merger_edges merging_strategy) = []) as ->;
    [|apply app_nil_r].
  unfold exit_merger_edges, merger_edges.
  unfold fan_in in Hin.
  each_member Hin; injection Hin as -> ->;
    (destruct (selects_average merging_strategy); [|destruct (startswith _ _)]);
    reflexivity.
Qed.

Lemma get_node_fan_in_node_exit (merging_strategy sfx m : string) :
  (sfx, m) ∈ fan_in -> inputs_list ≠ [] ->
  get_node (graph_at_exit (distortion_exit merging_strategy inputs_list name)) m
  = Some (inl (merge_node (length (input_names inputs_list)) m)).
Proof.
  intros Hin Hne.
  assert (get_node (unmerged_graph inputs_list name) m
          = Some (inl (merge_node (length (input_names inputs_list)) m))) as Hloop.
  { unfold unmerged_graph. destruct inputs_list as [|a l]; [congruence|].
    cbn [sanitized_inputs map enumerate enumerate_from].
    unfold fan_in_graph. cbn [fold_left].
    change (fold_left ?f ?groups ?w) with (fan_in_graph (a :: l) groups w).
    rewrite fan_in_graph_connect. apply get_node_connect_graph_Some.
    unfold fan_in in Hin. each_member Hin; injection Hin as -> ->; reflexivity. }
  unfold distortion_exit, graph_at_exit.
  destruct (selects_average merging_strategy); [|destruct (startswith _ _)]; cbn [fst].
  - unfold average_graph. do 2 apply get_node_connect_graph_Some. exact Hloop.
  - unfold concat_graph. apply get_node_connect_graph_Some. exact Hloop.
  - exact Hloop.
Qed.

Lemma edges_into_merger_exit (merging_strategy : string) :
  edges_into (graph_at_exit (distortion_exit merging_strategy inputs_list name))
             "distortion_merger"
  = exit_merger_edges merging_strategy.
Proof.
  unfold edges_into. rewrite wf_edges_exit, filter_app, filter_fan_in_edges_none.
  - unfold exit_merger_edges, merger_edges.
    destruct (selects_average merging_strategy); [|destruct (startswith _ _)]; reflexivity.
  - intros p. unfold fan_in_edges. each_element; cbn; discriminate.
Qed.

End fan_in_nodes.

(** ** The fan-in nodes and the merge node *)
Section distortion_group_merge_wiring.
Import distortion_group_merge.

Variable init_mask_overlap_wf : string -> Workflow.
Variable init_dwi_derivatives_wf :
  string -> string -> string -> list string -> string -> bool -> string -> Z -> Workflow.
Variables (hmc_model reportlets_dir : string).
Variables (harmonize_b0_intensities : bool) (b0_threshold : Z).
Variables (output_prefix source_file output_dir template : string).
Variables (shoreline_iters mem_gb omp_nthreads : Z).

#[local] Abbreviation run merging_strategy inputs_list name :=
  (init_distortion_group_merge_wf init_mask_overlap_wf init_dwi_derivatives_wf
     merging_strategy inputs_list hmc_model reportlets_dir
     harmonize_b0_intensities b0_threshold
     output_prefix source_file output_dir template shoreline_iters
     mem_gb omp_nthreads name).

(** X3.  For a non-empty [inputs_list] of N groups, each of the seven
    fan-in nodes in the graph is a [Merge] with 7N input ports
    ([num_inputs] counts the slot names, not the groups), of which
    exactly the N ports [in1] ... [inN] receive a connection. *)
Theorem X3_fan_in_nodes_use_N_of_7N_ports
    (merging_strategy : string) (inputs_list : list string) (name : string) :
  inputs_list ≠ [] ->
  let g := graph_at_exit (run merging_strategy inputs_list name) in
  Forall (fun kind : string * string =>
            get_node g kind.2
            = Some (inl (merge_node (7 * length inputs_list) kind.2))
            ∧ map e_dstfield (edges_into g kind.2)
              = map (fun i => "in" +:+ format_d i) (seq 1 (length inputs_list)))
         fan_in.
Proof.
  intros Hne. cbv zeta. rewrite run_distortion_exit.
  apply Forall_forall. intros [sfx m] Hin. cbn [fst snd]. split.
  - rewrite <- length_input_names. apply (get_node_fan_in_node_exit _ _ _ sfx); assumption.
  - rewrite (edges_into_fan_in_node_exit _ _ _ sfx) by exact Hin.
    rewrite map_map. cbn [e_dstfield]. unfold enumerate.
    rewrite port_names_enumerate_from. unfold sanitized_inputs.
    rewrite length_map. reflexivity.
Qed.

(** X7.  When the lowercased strategy is ['average'], the merge node is
    the [AveragePEPairs] node and exactly seven edges arrive at it: the
    [out] port of the original-bvec fan-in at [original_bvec_files],
    then the [out] ports of the image, bval, bvec, original-image,
    raw-concatenated-image and b0-reference fan-ins at [dwi_files],
    [bval_files], [bvec_files], [bids_dwi_files],
    [raw_concatenated_files] and [b0_refs]. *)
Theorem X7_average_merge_node_inputs
    (merging_strategy : string) (inputs_list : list string) (name : string) :
  lower merging_strategy = "average" ->
  let g := graph_at_exit (run merging_strategy inputs_list name) in
  get_node g "distortion_merger" = Some (inl averager)
  ∧ n_interface averager = AveragePEPairs
  ∧ edges_into g "distortion_merger"
    = ["merge_original_bvec" @ "out" ~> "distortion_merger" @ "original_bvec_files";
       "merge_images" @ "out" ~> "distortion_merger" @ "dwi_files";
       "merge_bval" @ "out" ~> "distortion_merger" @ "bval_files";
       "merge_bvec" @ "out" ~> "distortion_merger" @ "bvec_files";
       "merge_original_image" @ "out" ~> "distortion_merger" @ "bids_dwi_files";
       "merge_raw_concatenated_image" @ "out" ~> "distortion_merger"
         @ "raw_concatenated_files";
       "merge_b0_refs" @ "out" ~> "distortion_merger" @ "b0_refs"].
Proof.
  intros Ha. apply String.eqb_eq in Ha. cbv zeta.
  rewrite run_distortion_exit, edges_into_merger_exit.
  unfold distortion_exit, exit_merger_edges, selects_average, graph_at_exit.
  rewrite Ha. cbn [fst].
  split; [apply get_node_average_graph|]. split; reflexivity.
Qed.

(** X8.  When the strategy starts with the lowercase prefix ['concat'],
    the merge node is the [MergeDWIs] node and exactly six edges arrive
    at it, from the image, bval, bvec, original-image,
    raw-concatenated-image and b0-reference fan-ins; the original-bvec
    fan-in is still filled by the loop, but nothing reads its output. *)
Theorem X8_concat_merge_node_inputs
    (merging_strategy : string) (inputs_list : list string) (name : string) :
  startswith merging_strategy "concat" = true ->
  let g := graph_at_exit (run merging_strategy inputs_list name) in
  get_node g "distortion_merger" = Some (inl concatenator)
  ∧ n_interface concatenator = MergeDWIs
  ∧ edges_into g "distortion_merger"
    = ["merge_images" @ "out" ~> "distortion_merger" @ "dwi_files";
       "merge_bval" @ "out" ~> "distortion_merger" @ "bval_files";
       "merge_bvec" @ "out" ~> "distortion_merger" @ "bvec_files";
       "merge_original_image" @ "out" ~> "distortion_merger" @ "bids_dwi_files";
       "merge_raw_concatenated_image" @ "out" ~> "distortion_merger"
         @ "raw_concatenated_files";
       "merge_b0_refs" @ "out" ~> "distortion_merger" @ "b0_refs"]
  ∧ length (edges_into g "merge_original_bvec") = length inputs_list
  ∧ fields_read g "merge_original_bvec" = [].
Proof.
  intros Hc. pose proof (startswith_concat_not_average _ Hc) as Ha. cbv zeta.
  rewrite run_distortion_exit, edges_into_merger_exit.
  rewrite (edges_into_fan_in_node_exit _ _ _ "_original_bvec") by member_by_computation.
  unfold fields_read. rewrite wf_edges_exit.
  unfold distortion_exit, exit_merger_edges, graph_at_exit.
  rewrite Ha, Hc. cbn [fst].
  split; [apply get_node_concat_graph|]. split; [reflexivity|]. split; [reflexivity|].
  split.
  - unfold enumerate, sanitized_inputs.
    rewrite length_map, length_enumerate_from, length_map. reflexivity.
  - rewrite filter_app, filter_fan_in_edges_none; [reflexivity|].
    intros p. unfold fan_in_edges. each_element; cbn; discriminate.
Qed.

End distortion_group_merge_wiring.

Lemma X3_witness :
  ["dir-AP"; "dir-PA"] ≠ []
  ∧ map e_dstfield
      (edges_into
         (graph_at_exit
            (distortion_group_merge.init_distortion_group_merge_wf
               distortion_group_merge.empty_mask_overlap_wf
               distortion_group_merge.empty_dwi_derivatives_wf
               "concat" ["dir-AP"; "dir-PA"] "3dSHORE" "/work/reportlets" true 100
               "sub-01" "sub-01_dwi.nii.gz" "/out" "MNI152NLin2009cAsym" 2 3 1
               "distortion_group_merge_wf"))
         "merge_bval")
    = ["in1"; "in2"].
Proof.
  split; [discriminate|].
  pose proof (X3_fan_in_nodes_use_N_of_7N_ports
                distortion_group_merge.empty_mask_overlap_wf
                distortion_group_merge.empty_dwi_derivatives_wf
                "3dSHORE" "/work/reportlets" true 100
                "sub-01" "sub-01_dwi.nii.gz" "/out" "MNI152NLin2009cAsym" 2 3 1
                "concat" ["dir-AP"; "dir-PA"] "distortion_group_merge_wf") as H.
  cbv zeta in H. rewrite Forall_forall in H.
  refine (proj2 (H ltac:(discriminate) ("_bval", "merge_bval") _)).
  apply list_elem_of_further, list_elem_of_here.
Defined.

Lemma X7_witness :
  lower "AVERAGE" = "average"
  ∧ get_node
      (graph_at_exit
         (distortion_group_merge.init_distortion_group_merge_wf
            distortion_group_merge.empty_mask_overlap_wf
            distortion_group_merge.empty_dwi_derivatives_wf
            "AVERAGE" ["dir-AP"; "dir-PA"] "3dSHORE" "/work/reportlets" true 100
            "sub-01" "sub-01_dwi.nii.gz" "/out" "MNI152NLin2009cAsym" 2 3 1
            "distortion_group_merge_wf"))
      "distortion_merger"
    = Some (inl distortion_group_merge.averager).
Proof.
  split; [reflexivity|].
  apply (X7_average_merge_node_inputs
           distortion_group_merge.empty_mask_overlap_wf
           distortion_group_merge.empty_dwi_derivatives_wf
           "3dSHORE" "/work/reportlets" true 100
           "sub-01" "sub-01_dwi.nii.gz" "/out" "MNI152NLin2009cAsym" 2 3 1
           "AVERAGE" ["dir-AP"; "dir-PA"] "distortion_group_merge_wf").
  reflexivity.
Defined.

Lemma X8_witness :
  startswith "concatenate" "concat" = true
  ∧ get_node
      (graph_at_exit
         (distortion_group_merge.init_distortion_group_merge_wf
            distortion_group_merge.empty_mask_overlap_wf
            distortion_group_merge.empty_dwi_derivatives_wf
            "concatenate" ["dir-AP"; "dir-PA"] "3dSHORE" "/work/reportlets" true 100
            "sub-01" "sub-01_dwi.nii.gz" "/out" "MNI152NLin2009cAsym" 2 3 1
            "distortion_group_merge_wf"))
      "distortion_merger"
    = Some (inl distortion_group_merge.concatenator).
Proof.
  split; [reflexivity|].
  apply (X8_concat_merge_node_inputs
           distortion_group_merge.empty_mask_overlap_wf
           distortion_group_merge.empty_dwi_derivatives_wf
           "3dSHORE" "/work/reportlets" true 100
           "sub-01" "sub-01_dwi.nii.gz" "/out" "MNI152NLin2009cAsym" 2 3 1
           "concatenate" ["dir-AP"; "dir-PA"] "distortion_group_merge_wf").
  reflexivity.
Defined.

(** ** Sanitized identifiers and slot names, continued *)
Section sanitized_names.
Import distortion_group_merge.

(** X10.  Sanitizing keeps the length of an identifier, leaves no ['-']
    in it, changes nothing when applied again, and leaves an identifier
    unchanged exactly when it has no ['-']. *)
Theorem X10_sanitize_removes_hyphens (name : string) :
  contains "-" (sanitize name) = false
  ∧ String.length (sanitize name) = String.length name
  ∧ sanitize (sanitize name) = sanitize name
  ∧ (sanitize name = name <-> contains "-" name = false).
Proof.
  unfold sanitize. induction name as [|c r (IH1 & IH2 & IH3 & IH4)].
  - repeat split; reflexivity.
  - cbn [Py.replace contains String.length].
    destruct (Ascii.eqb c "-") eqn:E; cbn [orb].
    + split; [exact IH1|]. split; [f_equal; exact IH2|].
      split; [cbn; f_equal; exact IH3|]. split; [|discriminate].
      intros H. injection H as H _. apply Ascii.eqb_eq in E. subst c. discriminate H.
    + rewrite E. cbn [orb].
      split; [exact IH1|]. split; [f_equal; exact IH2|].
      split; [cbn [Py.replace]; rewrite ?E; f_equal; exact IH3|].
      rewrite <- IH4. split; [intros H; injection H as ->; reflexivity|].
      intros ->. reflexivity.
Qed.

(** X11.  Two identifiers get the same sanitized name exactly when they
    have the same length and agree at every position, a ['-'] and a
    ['_'] counting as agreeing. *)
Theorem X11_sanitize_collisions (a b : string) :
  sanitize a = sanitize b <-> same_up_to_dash a b = true.
Proof.
  unfold sanitize. revert b.
  induction a as [|c a IH]; intros [|d b]; cbn [Py.replace same_up_to_dash];
    try (split; [reflexivity | reflexivity || discriminate]);
    try (split; discriminate).
  rewrite andb_true_iff, <- IH, <- sanitize_char. split.
  - intros H. injection H as H1 H2. auto.
  - intros [H1 H2]. rewrite H1, H2. reflexivity.
Qed.

Lemma string_app_assoc (a b c : string) : (a +:+ b) +:+ c = a +:+ (b +:+ c).
Proof.
  induction a as [|x a IH]; [reflexivity|].
  change ((String x a +:+ b) +:+ c) with (String x ((a +:+ b) +:+ c)).
  change (String x a +:+ (b +:+ c)) with (String x (a +:+ (b +:+ c))).
  f_equal. exact IH.
Qed.

(** Two strings with a common end agree on the shorter of their tails. *)
Lemma append_common_end (g1 s1 g2 s2 : string) :
  g1 +:+ s1 = g2 +:+ s2 ->
  take (String.length s1 `min` String.length s2) (rev (list_ascii_of_string s1))
  = take (String.length s1 `min` String.length s2) (rev (list_ascii_of_string s2)).
Proof.
  intros H. apply (f_equal (fun x => rev (list_ascii_of_string x))) in H.
  rewrite !list_ascii_of_string_append, !rev_app_distr in H.
  apply (f_equal (take (String.length s1 `min` String.length s2))) in H.
  rewrite !take_app_le in H; [exact H|..];
    rewrite length_rev, list_ascii_of_string_length; lia.
Qed.

(** Slot names of different kinds coincide only when one identifier is
    the other followed by [_original] or [_raw_concatenated]. *)
Lemma slot_collision (g1 s1 g2 s2 : string) :
  s1 ∈ suffixes -> s2 ∈ suffixes -> g1 +:+ s1 = g2 +:+ s2 ->
  s1 = s2
  ∨ g1 = g2 +:+ "_original" ∨ g1 = g2 +:+ "_raw_concatenated"
  ∨ g2 = g1 +:+ "_original" ∨ g2 = g1 +:+ "_raw_concatenated".
Proof.
  intros H1 H2 H. unfold suffixes in H1, H2.
  each_member H1; each_member H2;
    first
      [ left; reflexivity
      | exfalso; apply append_common_end in H; vm_compute in H; discriminate H
      | right; left;
        solve [ apply (append_inj_suffix _ _ "_image"); rewrite string_app_assoc; exact H
              | apply (append_inj_suffix _ _ "_bvec"); rewrite string_app_assoc; exact H ]
      | right; right; left;
        apply (append_inj_suffix _ _ "_image"); rewrite string_app_assoc; exact H
      | do 3 right; left;
        solve [ apply (append_inj_suffix _ _ "_image"); rewrite string_app_assoc;
                symmetry; exact H
              | apply (append_inj_suffix _ _ "_bvec"); rewrite string_app_assoc;
                symmetry; exact H ]
      | do 4 right;
        apply (append_inj_suffix _ _ "_image"); rewrite string_app_assoc;
        symmetry; exact H ].
Qed.

Lemma NoDup_flat_map {A B : Type} (f : A -> list B) (l : list A) :
  NoDup l -> (forall a, a ∈ l -> NoDup (f a)) ->
  (forall a b x, a ∈ l -> b ∈ l -> x ∈ f a -> x ∈ f b -> a = b) ->
  NoDup (flat_map f l).
Proof.
  intros Hl. induction Hl as [|a l Ha Hl IH]; intros Hf Hdis; cbn [flat_map].
  - apply NoDup_nil_2.
  - apply NoDup_app. split; [apply Hf, list_elem_of_here|]. split.
    + intros x Hx Hrest. apply list_elem_of_In, in_flat_map in Hrest as [b [Hb Hxb]].
      apply list_elem_of_In in Hb, Hxb. apply Ha.
      rewrite (Hdis a b x); auto using list_elem_of_here, list_elem_of_further.
    + apply IH.
      * intros b Hb. apply Hf, list_elem_of_further, Hb.
      * intros b c x Hb Hc. apply Hdis; apply list_elem_of_further; assumption.
Qed.

(** X12.  The slot names are pairwise distinct as soon as the sanitized
    identifiers are pairwise distinct and none of them is another one
    followed by [_original] or [_raw_concatenated]. *)
Theorem X12_slot_names_distinct (inputs_list : list string) :
  NoDup (sanitized_inputs inputs_list) ->
  Forall (fun g => Forall (fun g' => g ≠ g' +:+ "_original"
                                     ∧ g ≠ g' +:+ "_raw_concatenated")
                          (sanitized_inputs inputs_list))
         (sanitized_inputs inputs_list) ->
  NoDup (input_names inputs_list).
Proof.
  intros Hnd Hfree. rewrite input_names_blocks. apply NoDup_flat_map.
  - unfold suffixes.
    repeat (apply NoDup_cons_2;
            [rewrite ?elem_of_cons, ?elem_of_nil; intros H; destruct_or?;
             solve [discriminate H | destruct H]|]);
    apply NoDup_nil_2.
  - intros s _. apply NoDup_fmap_2_strong; [|exact Hnd].
    intros g1 g2 _ _ H. exact (append_inj_suffix _ _ _ H).
  - intros s1 s2 x Hs1 Hs2 [g1 [-> Hg1]]%list_elem_of_fmap [g2 [Hx Hg2]]%list_elem_of_fmap.
    rewrite Forall_forall in Hfree.
    pose proof (Hfree g1 Hg1) as F1. pose proof (Hfree g2 Hg2) as F2.
    rewrite Forall_forall in F1, F2.
    destruct (F1 g2 Hg2) as [A1 A2]. destruct (F2 g1 Hg1) as [B1 B2].
    destruct (slot_collision g1 s1 g2 s2 Hs1 Hs2 Hx) as [E|[E|[E|[E|E]]]];
      [exact E | contradiction..].
Qed.

End sanitized_names.

Lemma X12_witness :
  NoDup (distortion_group_merge.sanitized_inputs ["dir-AP"; "dir-PA"])
  ∧ Forall (fun g => Forall (fun g' => g ≠ g' +:+ "_original"
                                       ∧ g ≠ g' +:+ "_raw_concatenated")
                            (distortion_group_merge.sanitized_inputs ["dir-AP"; "dir-PA"]))
           (distortion_group_merge.sanitized_inputs ["dir-AP"; "dir-PA"])
  ∧ NoDup (distortion_group_merge.input_names ["dir-AP"; "dir-PA"]).
Proof.
  assert (NoDup (distortion_group_merge.sanitized_inputs ["dir-AP"; "dir-PA"])) as H1
    by (apply (bool_decide_unpack _); vm_compute; exact I).
  assert (Forall (fun g => Forall (fun g' => g ≠ g' +:+ "_original"
                                             ∧ g ≠ g' +:+ "_raw_concatenated")
                     (distortion_group_merge.sanitized_inputs ["dir-AP"; "dir-PA"]))
            (distortion_group_merge.sanitized_inputs ["dir-AP"; "dir-PA"])) as H2
    by (apply (bool_decide_unpack _); vm_compute; exact I).
  split; [exact H1|]. split; [exact H2|].
  exact (X12_slot_names_distinct ["dir-AP"; "dir-PA"] H1 H2).
Defined.
